(** * orb-example: the transaction ingestion script [main.py]

    A shallow embedding of [src/main.py] and the properties of its
    per-row workflow: resolve or create the customer, build one usage
    event, submit it, pause, go on with the next row.

    Conventions of the embedding.
    - Python [str] values are [string]s.  The string methods and [int()]
      are written out for ASCII text: case mapping is the one of the
      ASCII letters and the decimal digits are ['0'..'9'].
    - A row of [csv.DictReader] is a finite map from column names to cell
      text; [row["k"]] on an absent column raises [KeyError].  These are
      the rows of the lines that have a cell for every column of the
      header: the reader fills the missing cells of a shorter line with
      [None], and such lines are outside the model.
    - The Orb client, [uuid.uuid4] and the clock are the environment of
      the script.  The client is an interface over an abstract server
      state; its three methods answer with a value or raise.
    - The script itself is written in a small monad that threads the
      environment, collects the effects the script performs (log lines,
      client calls, sleeps) and distinguishes a normal return, a
      propagating Python exception and [sys.exit]. *)

From Stdlib Require Import ZArith QArith Ascii String List Lia.
From stdpp Require Import base tactics option list gmap strings pretty.

Local Open Scope Z_scope.
Local Open Scope string_scope.

(** ** Python exceptions

    The classes the script's [except] clauses tell apart, and the builtin
    ones its own expressions can raise.  All of them derive from
    [Exception].  In the Orb SDK [RateLimitError] derives from
    [APIStatusError]; the constructor [APIStatusError] stands for the
    status errors that are not rate-limit errors. *)

(** The HTTP response attached to a status error.  [response.json()]
    decodes the body, and raises when the body is not JSON. *)
Record Response : Type := mkResponse {
  body_json : option string
}.

Inductive exn : Type :=
| APIConnectionError (cause : string)
| RateLimitError (message : string)
| APIStatusError (status_code : Z) (response : Response)
| KeyError (key : string)
| ValueError (message : string)
| JSONDecodeError
| OtherException (message : string).

(** ** Strings *)

Module Str.

(** [s.replace(old, new)] for a one-character [old]. *)
Fixpoint replace (old : ascii) (new : string) (s : string) : string :=
  match s with
  | EmptyString => EmptyString
  | String c s' =>
      if Ascii.eqb c old then new ++ replace old new s'
      else String c (replace old new s')
  end.

Definition is_upper (c : ascii) : bool :=
  (65 <=? nat_of_ascii c)%nat && (nat_of_ascii c <=? 90)%nat.

Definition is_lower (c : ascii) : bool :=
  (97 <=? nat_of_ascii c)%nat && (nat_of_ascii c <=? 122)%nat.

(** A cased character: a letter. *)
Definition is_cased (c : ascii) : bool := is_upper c || is_lower c.

Definition to_upper (c : ascii) : ascii :=
  if is_lower c then ascii_of_nat (nat_of_ascii c - 32) else c.

Definition to_lower (c : ascii) : ascii :=
  if is_upper c then ascii_of_nat (nat_of_ascii c + 32) else c.

(** [s.title()]: a character that follows a cased character is
    lower-cased, any other character is title-cased (upper-cased). *)
Fixpoint title_from (previous_is_cased : bool) (s : string) : string :=
  match s with
  | EmptyString => EmptyString
  | String c s' =>
      String (if previous_is_cased then to_lower c else to_upper c)
             (title_from (is_cased c) s')
  end.

Definition title (s : string) : string := title_from false s.

(** [c in s] for a character [c]. *)
Fixpoint contains (c : ascii) (s : string) : bool :=
  match s with
  | EmptyString => false
  | String d s' => Ascii.eqb d c || contains c s'
  end.

End Str.

(** ** [int(str)]

    The text is an optional run of white space, an optional sign, decimal
    digits in which single underscores may separate digits, and an
    optional run of white space.  Anything else raises [ValueError], and
    so does a literal with more digits than the interpreter's limit on
    integer string conversion ([sys.get_int_max_str_digits()], 4300
    unless configured; 0 switches the limit off).  The interpreter
    reads the run of digits and underscores, then tests the limit, then
    looks at what follows the run. *)

Module Builtins.

Definition is_space (c : ascii) : bool :=
  let n := nat_of_ascii c in
  ((9 <=? n)%nat && (n <=? 13)%nat) || (n =? 32)%nat.

Definition digit_value (c : ascii) : option Z :=
  let n := nat_of_ascii c in
  if (48 <=? n)%nat && (n <=? 57)%nat then Some (Z.of_nat (n - 48)) else None.

Fixpoint skip_spaces (s : string) : string :=
  match s with
  | String c s' => if is_space c then skip_spaces s' else s
  | EmptyString => s
  end.

Fixpoint all_spaces (s : string) : bool :=
  match s with
  | String c s' => is_space c && all_spaces s'
  | EmptyString => true
  end.

(** The digits and underscores at the head of [s].  [prev_us] says that
    the previous character was an underscore, [acc] is the value and [n]
    the number of digits read so far.  The result is the value, the
    number of digits and the rest of the text; [None] when an underscore
    is doubled or is the last character of the run. *)
Fixpoint scan (prev_us : bool) (acc : Z) (n : nat) (s : string)
  : option (Z * nat * string) :=
  match s with
  | EmptyString => if prev_us then None else Some (acc, n, EmptyString)
  | String c s' =>
      match digit_value c with
      | Some d => scan false (10 * acc + d) (S n) s'
      | None =>
          if Ascii.eqb c "_" then
            if prev_us then None else scan true acc n s'
          else
            if prev_us then None else Some (acc, n, s)
      end
  end.

Definition starts_with_underscore (s : string) : bool :=
  match s with
  | String c _ => Ascii.eqb c "_"
  | EmptyString => false
  end.

(** The threshold under which the interpreter does not consult the
    limit. *)
Definition max_str_digits_threshold : nat := 640.

Definition exceeds_limit (max_str_digits digits : nat) : bool :=
  (max_str_digits_threshold <? digits)%nat
  && (0 <? max_str_digits)%nat
  && (max_str_digits <? digits)%nat.

Definition invalid_literal : exn :=
  ValueError "invalid literal for int() with base 10".

Definition limit_exceeded : exn :=
  ValueError "Exceeds the limit for integer string conversion".

Definition int (max_str_digits : nat) (s : string) : exn + Z :=
  let s1 := skip_spaces s in
  let '(sign, s2) :=
    match s1 with
    | String "+" r => (1, r)
    | String "-" r => (-1, r)
    | _ => (1, s1)
    end in
  if starts_with_underscore s2 then inl invalid_literal else
  match scan false 0 0 s2 with
  | None => inl invalid_literal
  | Some (v, digits, rest) =>
      if (digits =? 0)%nat then inl invalid_literal
      else if exceeds_limit max_str_digits digits then inl limit_exceeded
      else if negb (all_spaces rest) then inl invalid_literal
      else inr (sign * v)
  end.

End Builtins.

(** ** [parse_int] (main.py, lines 30-34) *)

Definition parse_int (max_str_digits : nat) (value : string) : exn + Z :=
  if String.eqb value "" then inr 0
  else Builtins.int max_str_digits (Str.replace "," "" value).

(** ** Data model *)

(** A row as [csv.DictReader] yields it. *)
Abbreviation Row := (gmap string string).

(** The customer object the client returns. *)
Module Customer.
Record t : Type := mk {
  id : string;
  external_customer_id : string;
  name : string;
  email : string
}.
End Customer.

(** A value stored in the [properties] dict of an event. *)
Inductive value : Type :=
| VStr (s : string)
| VInt (n : Z).

(** The event dict of lines 137-152. *)
Module Event.
Record t : Type := mk {
  customer_id : string;
  timestamp : string;
  idempotency_key : string;
  event_name : string;
  properties : gmap string value
}.
End Event.

(** What [client.events.ingest] returns. *)
Record IngestResponse : Type := mkIngestResponse {
  debug : string
}.

(** ** Effects *)

Inductive Level : Type := DEBUG | ERROR.

(** An argument of a log call. *)
Inductive logarg : Type :=
| AStr (s : string)
| AInt (n : Z)
| ARow (row : Row)
| AEvent (event : Event.t)
| AExn (e : exn)
| AResponse (r : IngestResponse).

(** What the script does to the outside world, in order. *)
Inductive effect : Type :=
| Log (level : Level) (fmt : string) (args : list logarg)
| FetchByExternalId (external_customer_id : string)
| CreateCustomer (external_customer_id name email idempotency_key : string)
| IngestEvents (events : list Event.t)
| Sleep (seconds : Q)
| CloseClient.

(** The client: [client.customers.fetch_by_external_id],
    [client.customers.create] and [client.events.ingest], over the state
    [W] of the billing platform. *)
Class OrbClient (W : Type) : Type := {
  fetch_by_external_id : W → string → (exn + Customer.t) * W;
  create : W → string → string → string → string → (exn + Customer.t) * W;
  ingest : W → list Event.t → (exn + IngestResponse) * W
}.

(** The environment of a run: the platform, the number of tokens drawn
    from [uuid.uuid4] and the number of readings of the clock. *)
Record state (W : Type) : Type := mkState {
  server : W;
  drawn : nat;
  ticks : nat
}.
Arguments mkState {W} _ _ _.
Arguments server {W} _.
Arguments drawn {W} _.
Arguments ticks {W} _.

(** How a computation ends: it returns, a Python exception propagates
    out of it, or [sys.exit(code)] was called. *)
Inductive outcome (A : Type) : Type :=
| Return (a : A)
| Raise (e : exn)
| SysExit (code : Z).
Arguments Return {A} _.
Arguments Raise {A} _.
Arguments SysExit {A} _.

Record result (W A : Type) : Type := mkResult {
  effects : list effect;
  final : state W;
  ending : outcome A
}.
Arguments mkResult {W A} _ _ _.
Arguments effects {W A} _.
Arguments final {W A} _.
Arguments ending {W A} _.

Definition M (W A : Type) : Type := state W → result W A.

Global Instance M_ret {W} : MRet (M W) :=
  λ A a st, mkResult [] st (Return a).

Global Instance M_bind {W} : MBind (M W) :=
  λ A B k m st,
    match m st with
    | mkResult t s (Return a) =>
        match k a s with
        | mkResult t' s' o => mkResult (t ++ t') s' o
        end
    | mkResult t s (Raise e) => mkResult t s (Raise e)
    | mkResult t s (SysExit code) => mkResult t s (SysExit code)
    end.

Global Instance M_fmap {W} : FMap (M W) :=
  λ A B f m, a ← m; mret (f a).

(** [try: body except Exception as e: handler e]; [sys.exit] is not an
    [Exception] and passes through. *)
Definition try_except {W A} (body : M W A) (handler : exn → M W A) : M W A :=
  λ st,
    match body st with
    | mkResult t s (Raise e) =>
        match handler e s with
        | mkResult t' s' o => mkResult (t ++ t') s' o
        end
    | r => r
    end.

Definition raise {W A} (e : exn) : M W A :=
  λ st, mkResult [] st (Raise e).

Definition sys_exit {W A} (code : Z) : M W A :=
  λ st, mkResult [] st (SysExit code).

Definition perform {W} (e : effect) : M W unit :=
  λ st, mkResult [e] st (Return tt).

Definition log {W} (level : Level) (fmt : string) (args : list logarg) : M W unit :=
  perform (Log level fmt args).

(** [row[key]] *)
Definition getitem {W} (row : Row) (key : string) : M W string :=
  match row !! key with
  | Some v => mret v
  | None => raise (KeyError key)
  end.

(** A function that returns or raises, run inside the script. *)
Definition lift {W A} (r : exn + A) : M W A :=
  match r with
  | inl e => raise e
  | inr a => mret a
  end.

(** [e.response.json()] *)
Definition response_json {W} (r : Response) : M W string :=
  match body_json r with
  | Some j => mret j
  | None => raise JSONDecodeError
  end.

(** ** The script *)

(** Line 97: the display name of a new customer. *)
Definition customer_name (account_id : string) : string :=
  Str.title (Str.replace "_" " " account_id).

(** Line 98: the placeholder email of a new customer. *)
Definition customer_email (account_id : string) : string :=
  "admin@" ++ Str.replace "_" "-" account_id ++ ".com".

(** [time.sleep(1.5)] *)
Definition throttle_delay : Q := 3 # 2.

(** The Python runtime the script draws on. *)
Class Runtime : Type := {
  (** [str(uuid.uuid4())]: the n-th token the generator hands out. *)
  uuid4 : nat → string;
  (** [datetime.datetime.now(datetime.UTC).isoformat()]: the n-th reading
      of the clock. *)
  utcnow : nat → string;
  (** [sys.get_int_max_str_digits()] *)
  max_str_digits : nat
}.

Section Script.

Context {W : Type} {client : OrbClient W} {runtime : Runtime}.

Definition new_uuid : M W string :=
  λ st, mkResult [] (mkState (server st) (S (drawn st)) (ticks st))
                 (Return (uuid4 (drawn st))).

Definition now_isoformat : M W string :=
  λ st, mkResult [] (mkState (server st) (drawn st) (S (ticks st)))
                 (Return (utcnow (ticks st))).

(** A call of the client: the call is an effect, the platform answers. *)
Definition call {A} (e : effect) (method : W → (exn + A) * W) : M W A :=
  λ st,
    match method (server st) with
    | (inl x, w) => mkResult [e] (mkState w (drawn st) (ticks st)) (Raise x)
    | (inr a, w) => mkResult [e] (mkState w (drawn st) (ticks st)) (Return a)
    end.

Definition customers_fetch_by_external_id (external_customer_id : string)
  : M W Customer.t :=
  call (FetchByExternalId external_customer_id)
       (λ w, fetch_by_external_id w external_customer_id).

Definition customers_create (external_customer_id name email idempotency_key : string)
  : M W Customer.t :=
  call (CreateCustomer external_customer_id name email idempotency_key)
       (λ w, create w external_customer_id name email idempotency_key).

Definition events_ingest (events : list Event.t) : M W IngestResponse :=
  call (IngestEvents events) (λ w, ingest w events).

Definition sleep (seconds : Q) : M W unit := perform (Sleep seconds).

(** Lines 54-88: look the customer up.  [None] is the placeholder that
    is left when the lookup answered 404. *)
Definition fetch_customer (row : Row) : M W (option Customer.t) :=
  try_except
    (account_id ← getitem row "account_id";
     customer ← customers_fetch_by_external_id account_id;
     mret (Some customer))
    (λ e,
       match e with
       | APIConnectionError cause =>
           log ERROR "The server could not be reached" [];;
           log ERROR "Underlying exception: %s" [AStr cause];;
           log ERROR "Exiting" [];;
           sys_exit 1
       | RateLimitError _ =>
           log ERROR "A 429 status code was received; we should back off a bit... %s" [AExn e];;
           log ERROR "Exiting" [];;
           sys_exit 1
       | APIStatusError status_code response =>
           log ERROR "Another non-200-range status code was received" [];;
           if (status_code =? 404)%Z then
             log ERROR "Status was 404, customer not found, creating new customer" [];;
             mret None
           else
             log ERROR "Status code: %s" [AInt status_code];;
             body ← response_json response;
             log ERROR "Response: %s" [AStr body];;
             log ERROR "Exiting" [];;
             sys_exit 1
       | _ =>
           log ERROR "Error fetching customer: %s" [AExn e];;
           log ERROR "Exiting" [];;
           sys_exit 1
       end).

(** Lines 92-126: create the customer. *)
Definition create_customer (row : Row) : M W Customer.t :=
  account_id ← getitem row "account_id";
  log DEBUG "Creating customer for account_id: %s" [AStr account_id];;
  try_except
    (external_customer_id ← getitem row "account_id";
     name ← customer_name <$> getitem row "account_id";
     email ← customer_email <$> getitem row "account_id";
     idempotency_key ← new_uuid;
     customers_create external_customer_id name email idempotency_key)
    (λ e,
       match e with
       | APIConnectionError cause =>
           log ERROR "The server could not be reached" [];;
           log ERROR "Underlying exception: %s" [AStr cause];;
           log ERROR "Exiting" [];;
           sys_exit 1
       | RateLimitError _ =>
           log ERROR "A 429 status code was received; we should back off a bit... %s" [AExn e];;
           log ERROR "Exiting" [];;
           sys_exit 1
       | APIStatusError status_code response =>
           log ERROR "Another non-200-range status code was received" [];;
           log ERROR "Status code: %s" [AInt status_code];;
           body ← response_json response;
           log ERROR "Response: %s" [AStr body];;
           log ERROR "Exiting" [];;
           sys_exit 1
       | _ =>
           log ERROR "Error creating customer: %s" [AExn e];;
           log ERROR "Exiting" [];;
           sys_exit 1
       end).

(** Lines 50-132: the customer of the row, found or created. *)
Definition resolve_customer (row : Row) : M W Customer.t :=
  account_id ← getitem row "account_id";
  log DEBUG "Checking for customer with account_id: %s" [AStr account_id];;
  customer ← fetch_customer row;
  match customer with
  | None => create_customer row
  | Some customer =>
      account_id ← getitem row "account_id";
      log DEBUG "Customer found: %s (ID: %s)" [AStr account_id; AStr (Customer.id customer)];;
      mret customer
  end.

(** Lines 137-152: the event payload; the entries are evaluated in the
    order in which the dict display lists them. *)
Definition build_event (row : Row) (customer : Customer.t) : M W Event.t :=
  timestamp ← now_isoformat;
  idempotency_key ← new_uuid;
  transaction_id ← getitem row "transaction_id";
  account_type ← getitem row "account_type";
  bank_id ← getitem row "bank_id";
  standard ← getitem row "standard" ≫= (λ v, lift (parse_int max_str_digits v));
  sameday ← getitem row "sameday" ≫= (λ v, lift (parse_int max_str_digits v));
  month ← getitem row "month";
  mret (Event.mk (Customer.id customer) timestamp idempotency_key
          "payment_transaction"
          (<["transaction_id" := VStr transaction_id]>
           (<["account_type" := VStr account_type]>
            (<["bank_id" := VStr bank_id]>
             (<["standard" := VInt standard]>
              (<["sameday" := VInt sameday]>
               (<["month" := VStr month]> ∅))))))).

(** Lines 157-177: submit the event; [None] is the placeholder that is
    left when the call raised. *)
Definition ingest_event (event : Event.t) : M W (option IngestResponse) :=
  try_except
    (response ← events_ingest [event];
     mret (Some response))
    (λ e,
       match e with
       | APIConnectionError cause =>
           log ERROR "The server could not be reached" [];;
           log ERROR "Underlying exception: %s" [AStr cause];;
           mret None
       | RateLimitError _ =>
           log ERROR "A 429 status code was received; we should back off a bit... %s" [AExn e];;
           mret None
       | APIStatusError status_code response =>
           log ERROR "Another non-200-range status code was received" [];;
           log ERROR "Status code: %s" [AInt status_code];;
           body ← response_json response;
           log ERROR "Response: %s" [AStr body];;
           mret None
       | _ =>
           log ERROR "Error ingesting event: %s" [AExn e];;
           mret None
       end).

(** Lines 179-189: report the row. *)
Definition report (row : Row) (response : option IngestResponse) : M W unit :=
  match response with
  | Some response =>
      transaction_id ← getitem row "transaction_id";
      log DEBUG "Successfully ingested event for transaction %s" [AStr transaction_id];;
      log DEBUG "Response: %s" [AResponse response]
  | None =>
      transaction_id ← getitem row "transaction_id";
      log ERROR "Failed to ingest event for transaction %s" [AStr transaction_id]
  end.

(** Lines 48-192: the body of the loop. *)
Definition process_row (row : Row) : M W unit :=
  log DEBUG "Processing row: %s" [ARow row];;
  customer ← resolve_customer row;
  event ← build_event row customer;
  log DEBUG "Attempting to ingest event: %s" [AEvent event];;
  response ← ingest_event event;
  report row response;;
  sleep throttle_delay.

(** Line 47: [for row in csv_reader]. *)
Fixpoint for_each_row (rows : list Row) : M W unit :=
  match rows with
  | [] => mret tt
  | row :: rest => process_row row;; for_each_row rest
  end.

(** [main], once the client is constructed and the file is open;
    [rows] are the rows the reader yields. *)
Definition main (rows : list Row) : M W unit :=
  for_each_row rows;;
  log DEBUG "Closing Orb client" [];;
  perform CloseClient;;
  log DEBUG "Finished ingesting events" [].

End Script.

(** ** Observations on a trace *)

(** The arguments of the calls of [client.events.ingest]. *)
Definition ingest_calls (t : list effect) : list (list Event.t) :=
  omap (λ e, match e with IngestEvents events => Some events | _ => None end) t.

(** The events submitted, over all calls. *)
Definition submitted (t : list effect) : list Event.t :=
  concat (ingest_calls t).

(** The arguments of the calls of [client.customers.create]. *)
Definition create_calls (t : list effect) : list (string * string * string * string) :=
  omap (λ e, match e with
             | CreateCustomer i n m k => Some (i, n, m, k)
             | _ => None
             end) t.

(** The first effect of the loop body: the log line of line 48. *)
Definition row_start (row : Row) : effect :=
  Log DEBUG "Processing row: %s" [ARow row].

Definition is_row_start (e : effect) : bool :=
  match e with
  | Log _ fmt _ => String.eqb fmt "Processing row: %s"
  | _ => false
  end.

Definition is_ingest (e : effect) : bool :=
  match e with IngestEvents _ => true | _ => false end.

Definition is_sleep (e : effect) : bool :=
  match e with Sleep _ => true | _ => false end.

Definition is_create (e : effect) : bool :=
  match e with CreateCustomer _ _ _ _ => true | _ => false end.

(** Neither a submission, nor a pause, nor the start of a row. *)
Definition quiet (e : effect) : bool :=
  negb (is_ingest e || is_sleep e || is_row_start e).

(** Neither a pause, nor the start of a row, nor a creation. *)
Definition inner (e : effect) : bool :=
  negb (is_sleep e || is_row_start e || is_create e).

(** What [main] does after the loop (lines 194-197). *)
Definition closing : list effect :=
  [Log DEBUG "Closing Orb client" []; CloseClient;
   Log DEBUG "Finished ingesting events" []].

(** The line that announces the submission (line 154). *)
Definition attempt_line (event : Event.t) : effect :=
  Log DEBUG "Attempting to ingest event: %s" [AEvent event].

(** The line that reports a failed row (lines 187-189). *)
Definition failed_line (transaction_id : string) : effect :=
  Log ERROR "Failed to ingest event for transaction %s" [AStr transaction_id].

(** ** Reference notions for the claims on text *)

Definition is_digit (c : ascii) : bool :=
  (48 <=? nat_of_ascii c)%nat && (nat_of_ascii c <=? 57)%nat.

Fixpoint all_digits (s : string) : bool :=
  match s with
  | EmptyString => true
  | String c s' => is_digit c && all_digits s'
  end.

(** Digits with grouping commas among them. *)
Fixpoint grouped_digits (s : string) : bool :=
  match s with
  | EmptyString => true
  | String c s' => (is_digit c || Ascii.eqb c ",") && grouped_digits s'
  end.

(** The integer a digit string denotes, most significant digit first. *)
Fixpoint decimal_value (s : string) : Z :=
  match s with
  | EmptyString => 0
  | String c s' =>
      Z.of_nat (nat_of_ascii c - 48) * 10 ^ Z.of_nat (String.length s')
      + decimal_value s'
  end.

(** The digit count is within the interpreter's limit, or the limit is
    switched off. *)
Definition within_limit (max_str_digits digits : nat) : Prop :=
  (digits ≤ max_str_digits ∨ max_str_digits = 0)%nat.

(** A string, character by character. *)
Fixpoint string_map (f : ascii → ascii) (s : string) : string :=
  match s with
  | EmptyString => EmptyString
  | String c s' => String (f c) (string_map f s')
  end.

Definition swap (old new : ascii) (c : ascii) : ascii :=
  if Ascii.eqb c old then new else c.

(** Title case, in the words of the library manual: words start with an
    upper-case character and their remaining characters are lower-case;
    a word is a run of letters.  The letters are listed, small ones
    and capitals side by side. *)
Definition small_letters : string := "abcdefghijklmnopqrstuvwxyz".

Definition capital_letters : string := "ABCDEFGHIJKLMNOPQRSTUVWXYZ".

Fixpoint position (c : ascii) (letters : string) : option nat :=
  match letters with
  | EmptyString => None
  | String d letters' =>
      if Ascii.eqb c d then Some 0%nat else S <$> position c letters'
  end.

Definition is_letter (c : ascii) : bool :=
  match position c small_letters, position c capital_letters with
  | None, None => false
  | _, _ => true
  end.

Definition capital (c : ascii) : ascii :=
  match position c small_letters with
  | Some i => default c (String.get i capital_letters)
  | None => c
  end.

Definition small (c : ascii) : ascii :=
  match position c capital_letters with
  | Some i => default c (String.get i small_letters)
  | None => c
  end.

Fixpoint title_case_from (inside_word : bool) (s : string) : string :=
  match s with
  | EmptyString => EmptyString
  | String c s' =>
      String (if is_letter c
              then if inside_word then small c else capital c
              else c)
             (title_case_from (is_letter c) s')
  end.

Definition title_case (s : string) : string := title_case_from false s.

(** ** Notions used in the statements *)

Section Notions.

Context {W : Type} {runtime : Runtime}.

(** All the effects of a computation satisfy [P]. *)
Definition emits (P : effect → Prop) {A} (m : M W A) : Prop :=
  ∀ st, Forall P (effects (m st)).

(** A computation never takes back a token it has drawn. *)
Definition draws {A} (m : M W A) : Prop :=
  ∀ st, (drawn st ≤ drawn (final (m st)))%nat.

(** The errors of the lookup that lines 58-70 answer with
    [sys.exit(1)]: no connection, or a rate limit. *)
Definition lookup_fatal (e : exn) : Prop :=
  (∃ cause, e = APIConnectionError cause) ∨ (∃ message, e = RateLimitError message).

(** A status error whose response body is not JSON. *)
Definition undecodable (e : exn) : Prop :=
  ∃ status_code response,
    e = APIStatusError status_code response ∧ body_json response = None.

(** What the payload of a row is, when there is one. *)
Record payload_of (row : Row) (customer : Customer.t) (st : state W)
       (event : Event.t) : Prop := {
  payload_customer : Event.customer_id event = Customer.id customer;
  payload_timestamp : Event.timestamp event = utcnow (ticks st);
  payload_key : Event.idempotency_key event = uuid4 (drawn st);
  payload_name : Event.event_name event = "payment_transaction";
  payload_properties :
    ∃ transaction_id account_type bank_id standard sameday month n1 n2,
      row !! "transaction_id" = Some transaction_id
      ∧ row !! "account_type" = Some account_type
      ∧ row !! "bank_id" = Some bank_id
      ∧ row !! "standard" = Some standard
      ∧ row !! "sameday" = Some sameday
      ∧ row !! "month" = Some month
      ∧ parse_int max_str_digits standard = inr n1
      ∧ parse_int max_str_digits sameday = inr n2
      ∧ Event.properties event
        = <["transaction_id" := VStr transaction_id]>
          (<["account_type" := VStr account_type]>
           (<["bank_id" := VStr bank_id]>
            (<["standard" := VInt n1]>
             (<["sameday" := VInt n2]>
              (<["month" := VStr month]> ∅)))))
}.

(** A cell of [standard] or [sameday] that [parse_int] rejects. *)
Definition bad_number (row : Row) (e : exn) : Prop :=
  ∃ transaction_id account_type bank_id standard,
    row !! "transaction_id" = Some transaction_id
    ∧ row !! "account_type" = Some account_type
    ∧ row !! "bank_id" = Some bank_id
    ∧ row !! "standard" = Some standard
    ∧ (parse_int max_str_digits standard = inl e
       ∨ ∃ n sameday,
           parse_int max_str_digits standard = inr n
           ∧ row !! "sameday" = Some sameday
           ∧ parse_int max_str_digits sameday = inl e).

(** The events a computation submitted, one per call, and the tokens
    they carry: tokens drawn during the computation, each once. *)
Definition submits (st s : state W) (t : list effect) (events : list Event.t) : Prop :=
  ingest_calls t = (λ event, [event]) <$> events
  ∧ ∃ ks, Event.idempotency_key <$> events = uuid4 <$> ks
          ∧ Forall (λ k, drawn st ≤ k < drawn s)%nat ks
          ∧ NoDup ks.

End Notions.

(** The columns of the input table. *)
Definition row_fields : list string :=
  ["account_id"; "transaction_id"; "account_type"; "bank_id";
   "standard"; "sameday"; "month"].

(** The [properties] of an event have an entry for every column. *)
Definition carries_all_fields (event : Event.t) : Prop :=
  ∀ k, k ∈ row_fields → is_Some (Event.properties event !! k).

(** The shape of the trace of the loop: the effects of a row start with
    the line of line 48 and have no other such line; a row is followed
    by another one only after the pause of line 192. *)
Inductive loop_trace : list effect → Prop :=
| loop_done t :
    Forall (λ e, is_row_start e = false) t → loop_trace t
| loop_last row t :
    Forall (λ e, is_row_start e = false) t → loop_trace (row_start row :: t)
| loop_next row t rest :
    Forall (λ e, is_row_start e = false) t →
    loop_trace rest →
    loop_trace (row_start row :: t ++ Sleep throttle_delay :: rest).

(** ** A scripted billing platform

    A small in-memory platform to run the script on: it knows a list of
    customers by external id, answers 404 for the others, and can be
    scripted to fail the next lookups or ingestions. *)

Module Platform.

Record t : Type := mk {
  customers : list string;
  fetch_faults : list (option exn);
  ingest_faults : list (option exn)
}.

Definition customer_of (external_customer_id : string) : Customer.t :=
  Customer.mk ("cus_" ++ external_customer_id) external_customer_id
              (customer_name external_customer_id)
              (customer_email external_customer_id).

Definition lookup (w : t) (external_customer_id : string) : exn + Customer.t :=
  if bool_decide (external_customer_id ∈ customers w)
  then inr (customer_of external_customer_id)
  else inl (APIStatusError 404 (mkResponse (Some "{}"))).

Definition fetch (w : t) (external_customer_id : string) : (exn + Customer.t) * t :=
  match fetch_faults w with
  | Some e :: faults => (inl e, mk (customers w) faults (ingest_faults w))
  | None :: faults =>
      (lookup w external_customer_id, mk (customers w) faults (ingest_faults w))
  | [] => (lookup w external_customer_id, w)
  end.

Definition add (w : t) (external_customer_id name email idempotency_key : string)
  : (exn + Customer.t) * t :=
  (inr (Customer.mk ("cus_" ++ external_customer_id) external_customer_id name email),
   mk (external_customer_id :: customers w) (fetch_faults w) (ingest_faults w)).

Definition accept (w : t) (events : list Event.t) : (exn + IngestResponse) * t :=
  match ingest_faults w with
  | Some e :: faults => (inl e, mk (customers w) (fetch_faults w) faults)
  | None :: faults =>
      (inr (mkIngestResponse "ok"), mk (customers w) (fetch_faults w) faults)
  | [] => (inr (mkIngestResponse "ok"), w)
  end.

Definition client : OrbClient t :=
  {| fetch_by_external_id := fetch; create := add; ingest := accept |}.

(** Tokens that never repeat, a clock that stands still and the
    default limit on integer string conversion. *)
Definition runtime : Runtime :=
  {| uuid4 := λ n, "uuid-" ++ pretty n;
     utcnow := λ _, "2024-01-01T00:00:00+00:00";
     max_str_digits := 4300 |}.

Definition start (w : t) : state t := mkState w 0 0.

(** The row of the end-to-end scenario, completed with the columns
    the scenario leaves out. *)
Definition acme_row : Row :=
  <["account_id" := "acme_corp"]>
  (<["transaction_id" := "T1"]>
   (<["account_type" := "checking"]>
    (<["bank_id" := "B1"]>
     (<["standard" := "1,000"]>
      (<["sameday" := ""]>
       (<["month" := "2024-01"]> ∅)))))).

(** The same row with a [standard] cell that is not a number. *)
Definition bad_row : Row := <["standard" := ","]> acme_row.

(** A second row, of another account. *)
Definition globex_row : Row :=
  <["account_id" := "globex"]> (<["transaction_id" := "T2"]> acme_row).

Definition empty : t := mk [] [] [].

(** A gateway in front of the platform answers 502 with an HTML page. *)
Definition bad_gateway : exn := APIStatusError 502 (mkResponse None).

(** The platform behind that gateway, for the first submission. *)
Definition outage : t := mk [] [] [Some bad_gateway].

(** The platform that cannot be reached at the second lookup. *)
Definition unreachable : t := mk [] [None; Some (APIConnectionError "timed out")] [].

(** The event of [acme_row] on the empty platform. *)
Definition acme_event : Event.t :=
  Event.mk "cus_acme_corp" "2024-01-01T00:00:00+00:00" "uuid-1"
           "payment_transaction"
           (<["transaction_id" := VStr "T1"]>
            (<["account_type" := VStr "checking"]>
             (<["bank_id" := VStr "B1"]>
              (<["standard" := VInt 1000]>
               (<["sameday" := VInt 0]>
                (<["month" := VStr "2024-01"]> ∅)))))).

(** The row of a table without the column [account_id], and of one
    without the column [month]. *)
Definition anonymous_row : Row := delete "account_id" acme_row.

Definition undated_row : Row := delete "month" acme_row.

(** The platform that knows the customer of [acme_row]. *)
Definition known : t := mk ["acme_corp"] [] [].

(** The platform that answers the first lookup with a 500. *)
Definition failing : t :=
  mk [] [Some (APIStatusError 500 (mkResponse (Some "{}")))] [].

(** A client that may look up and submit, but not create. *)
Definition refuse (w : t) (external_customer_id name email idempotency_key : string)
  : (exn + Customer.t) * t :=
  (inl (APIStatusError 403 (mkResponse (Some "{}"))), w).

Definition readonly : OrbClient t :=
  {| fetch_by_external_id := fetch; create := refuse; ingest := accept |}.

End Platform.


(** ** Further observations on a trace *)

Definition is_close (e : effect) : bool :=
  match e with CloseClient => true | _ => false end.

(** A call of the client. *)
Definition is_call (e : effect) : bool :=
  match e with
  | FetchByExternalId _ | CreateCustomer _ _ _ _ | IngestEvents _ => true
  | _ => false
  end.

(** The calls of the client, in order. *)
Definition client_calls (t : list effect) : list effect :=
  List.filter is_call t.

(** The external ids the lookups were made for. *)
Definition fetch_calls (t : list effect) : list string :=
  omap (λ e, match e with FetchByExternalId i => Some i | _ => None end) t.

(** The idempotency keys of the creation calls. *)
Definition creation_keys (t : list effect) : list string :=
  (λ c, c.2) <$> create_calls t.

(** The pauses taken. *)
Definition sleeps (t : list effect) : list Q :=
  omap (λ e, match e with Sleep q => Some q | _ => None end) t.

(** The columns that lines 145-150 read. *)
Definition property_columns : list string :=
  ["transaction_id"; "account_type"; "bank_id"; "standard"; "sameday"; "month"].

(** The lines that report a submitted row (lines 181-185). *)
Definition success_line (transaction_id : string) : effect :=
  Log DEBUG "Successfully ingested event for transaction %s" [AStr transaction_id].

(** Commas and white space only. *)
Fixpoint blank_or_commas (s : string) : bool :=
  match s with
  | EmptyString => true
  | String c s' => (Builtins.is_space c || Ascii.eqb c ",") && blank_or_commas s'
  end.

Section Endings.

Context {W : Type} {runtime : Runtime}.

(** The exceptions that no [except] clause of the script is around: a
    missing column, a number [parse_int] rejects, an error body that is
    not JSON. *)
Definition uncaught (e : exn) : Prop :=
  (∃ k, e = KeyError k ∧ k ∈ row_fields)
  ∨ e = JSONDecodeError
  ∨ ∃ v, parse_int max_str_digits v = inl e.

(** A computation that exits with code 1 only, and lets through only
    exceptions that satisfy [Q]. *)
Definition ends (Q : exn → Prop) {A} (m : M W A) : Prop :=
  ∀ st, match ending (m st) with
        | Return _ => True
        | Raise e => Q e
        | SysExit code => code = 1%Z
        end.

End Endings.

(** * Properties *)

(** ** Text *)

Section Text.

Lemma replace_char old new s :
  Str.replace old (String new "") s = string_map (swap old new) s.
Proof.
  induction s as [|c s IH]; [done|]. simpl. unfold swap at 1.
  destruct (Ascii.eqb c old); simpl; by rewrite IH.
Qed.

Lemma replace_char_gone old new s :
  new ≠ old → Str.contains old (string_map (swap old new) s) = false.
Proof.
  intros Hne. induction s as [|c s IH]; [done|]. simpl. rewrite IH.
  unfold swap. destruct (Ascii.eqb c old) eqn:E.
  - apply orb_false_intro; [|done]. by apply Ascii.eqb_neq.
  - by rewrite E.
Qed.

Lemma string_map_length f s :
  String.length (string_map f s) = String.length s.
Proof. induction s; simpl; congruence. Qed.

Lemma title_from_length b s :
  String.length (Str.title_from b s) = String.length s.
Proof. revert b. induction s; intros; simpl; congruence. Qed.

Lemma to_upper_underscore c :
  Ascii.eqb (Str.to_upper c) "_" = Ascii.eqb c "_".
Proof. by destruct c as [[] [] [] [] [] [] [] []]. Qed.

Lemma to_lower_underscore c :
  Ascii.eqb (Str.to_lower c) "_" = Ascii.eqb c "_".
Proof. by destruct c as [[] [] [] [] [] [] [] []]. Qed.

Lemma title_from_contains_underscore b s :
  Str.contains "_" (Str.title_from b s) = Str.contains "_" s.
Proof.
  revert b. induction s as [|c s IH]; intros b; [done|]. simpl.
  rewrite IH. by destruct b; rewrite ?to_upper_underscore, ?to_lower_underscore.
Qed.

(** In a title-cased text, the character at a position is the
    lower-cased original when the character before it is a letter, and
    the upper-cased original otherwise. *)
Lemma title_from_get b pre c rest :
  String.get (String.length pre) (Str.title_from b (pre ++ String c rest))
  = Some (if match pre with
             | EmptyString => b
             | _ => Str.is_cased (default c (String.get (String.length pre - 1) pre))
             end
          then Str.to_lower c else Str.to_upper c).
Proof.
  revert b. induction pre as [|d pre IH]; intros b; [done|].
  simpl. rewrite IH. destruct pre as [|d' pre]; [done|].
  simpl. by rewrite Nat.sub_0_r.
Qed.

End Text.

Section Derivations.

Lemma contains_app c s1 s2 :
  Str.contains c (s1 ++ s2) = Str.contains c s1 || Str.contains c s2.
Proof.
  induction s1 as [|d s1 IH]; [done|]. simpl. rewrite IH. apply orb_assoc.
Qed.

(** Position by position, the display name is the title-cased account
    id with spaces for underscores. *)
Lemma customer_name_get pre c rest :
  String.get (String.length pre) (customer_name (pre ++ String c rest))
  = Some (if match pre with
             | EmptyString => false
             | _ => Str.is_cased (default c (String.get (String.length pre - 1) pre))
             end
          then Str.to_lower (swap "_" " " c) else Str.to_upper (swap "_" " " c)).
Proof.
  unfold customer_name, Str.title. rewrite replace_char.
  assert (Hmap : ∀ f s1 s2, string_map f (s1 ++ s2) = string_map f s1 ++ string_map f s2).
  { intros f s1 s2. induction s1 as [|y s1 IHs]; [done|]. simpl. by rewrite IHs. }
  rewrite Hmap. simpl. rewrite <- (string_map_length (swap "_" " ") pre).
  rewrite title_from_get. f_equal.
  destruct pre as [|d pre]; [done|].
  assert (Hget : ∀ s n x, String.get n s = Some x →
                 String.get n (string_map (swap "_" " ") s) = Some (swap "_" " " x)).
  { induction s as [|y s IHs]; intros [|n] x; simpl; try done.
    - by intros [= ->].
    - apply IHs. }
  assert (Hlast : ∃ x, String.get (String.length (String d pre) - 1) (String d pre) = Some x).
  { generalize d. induction pre as [|y pre IHp]; intros d0; simpl; [by eexists|].
    destruct (IHp y) as [x Hx]. simpl in Hx. rewrite Nat.sub_0_r in Hx.
    exists x. by destruct pre. }
  destruct Hlast as [x Hx]. rewrite string_map_length.
  rewrite (Hget _ _ _ Hx). rewrite Hx. simpl.
  replace (Str.is_cased (swap "_" " " x)) with (Str.is_cased x); [done|].
  by destruct x as [[] [] [] [] [] [] [] []].
Qed.

Example title_samples :
  Str.title "aBC dEF1g_h" = "Abc Def1G_H"
  ∧ Str.title "it's o'neil" = "It'S O'Neil"
  ∧ Str.title "x9y" = "X9Y".
Proof. by split_and!. Qed.

Lemma title_char (inside_word : bool) c :
  (if inside_word then Str.to_lower c else Str.to_upper c)
  = (if is_letter c then if inside_word then small c else capital c else c)
  ∧ Str.is_cased c = is_letter c.
Proof. by destruct inside_word, c as [[] [] [] [] [] [] [] []]. Qed.

(** [title] is title case as the manual words it. *)
Lemma title_from_title_case inside_word s :
  Str.title_from inside_word s = title_case_from inside_word s.
Proof.
  revert inside_word. induction s as [|c s IH]; intros b; [done|].
  simpl. destruct (title_char b c) as [-> ->]. by rewrite IH.
Qed.

(** C7. The display name of a new customer is the account id with
    every underscore replaced by a space, title-cased: every run of
    letters starts with a capital and goes on in small letters,
    whatever the case of the letters in the account id, and no
    underscore is left; "acme_corp" gives "Acme Corp". *)
Theorem customer_name_derivation :
  (∀ account_id,
     customer_name account_id
     = title_case (string_map (swap "_" " ") account_id)
     ∧ customer_name account_id
       = Str.title (string_map (swap "_" " ") account_id)
     ∧ Str.contains "_" (customer_name account_id) = false)
  ∧ customer_name "acme_corp" = "Acme Corp"
  ∧ customer_name "ACME_CORP" = "Acme Corp"
  ∧ customer_name "aCmE_cOrP" = "Acme Corp"
  ∧ customer_name "john_o'neil_3rd" = "John O'Neil 3Rd".
Proof.
  split; [|by split_and!]. intros a. unfold customer_name.
  rewrite replace_char. split_and!.
  - apply title_from_title_case.
  - done.
  - unfold Str.title. rewrite title_from_contains_underscore.
    by apply replace_char_gone.
Qed.

(** C8. The email of a new customer is "admin@", the account id with
    every underscore replaced by a dash, and ".com"; "acme_corp" gives
    "admin@acme-corp.com". *)
Theorem customer_email_derivation :
  (∀ account_id,
     customer_email account_id
     = "admin@" ++ string_map (swap "_" "-") account_id ++ ".com"
     ∧ Str.contains "_" (customer_email account_id) = false)
  ∧ customer_email "acme_corp" = "admin@acme-corp.com".
Proof.
  split; [|reflexivity]. intros a. unfold customer_email.
  rewrite replace_char. split; [done|].
  rewrite !contains_app, replace_char_gone by done. reflexivity.
Qed.

End Derivations.

(** ** [int] and [parse_int] *)

Section Parsing.

Variable max_str_digits : nat.

Lemma digit_char c :
  is_digit c = true →
  Builtins.digit_value c = Some (Z.of_nat (nat_of_ascii c - 48))
  ∧ Builtins.is_space c = false
  ∧ Ascii.eqb c "_" = false
  ∧ Ascii.eqb c "," = false.
Proof. by destruct c as [[] [] [] [] [] [] [] []]. Qed.

Lemma scan_digits s : ∀ acc n,
  all_digits s = true →
  Builtins.scan false acc n s
  = Some (acc * 10 ^ Z.of_nat (String.length s) + decimal_value s,
          (n + String.length s)%nat, "").
Proof.
  induction s as [|c s IH]; intros acc n Hs; simpl in *.
  - simpl. by rewrite Z.mul_1_r, Z.add_0_r, Nat.add_0_r.
  - apply andb_prop in Hs as [Hc Hs].
    destruct (digit_char c Hc) as (-> & _).
    rewrite IH by done. rewrite Nat2Z.inj_succ, Z.pow_succ_r by lia.
    rewrite Nat.add_succ_r. simpl Nat.add.
    replace ((10 * acc + Z.of_nat (nat_of_ascii c - 48))
             * 10 ^ Z.of_nat (String.length s) + decimal_value s)
      with (acc * (10 * 10 ^ Z.of_nat (String.length s))
            + (Z.of_nat (nat_of_ascii c - 48) * 10 ^ Z.of_nat (String.length s)
               + decimal_value s)) by lia.
    done.
Qed.

Lemma within_limit_ok digits :
  within_limit max_str_digits digits →
  Builtins.exceeds_limit max_str_digits digits = false.
Proof.
  unfold within_limit, Builtins.exceeds_limit. intros [H| ->].
  - apply andb_false_intro2. apply Nat.ltb_ge. lia.
  - by rewrite andb_false_r.
Qed.

(** [int] on a run of decimal digits. *)
Lemma int_digits s :
  s ≠ "" → all_digits s = true →
  within_limit max_str_digits (String.length s) →
  Builtins.int max_str_digits s = inr (decimal_value s).
Proof.
  intros Hne Hs Hlim. destruct s as [|c s]; [done|].
  pose proof (scan_digits (String c s) 0 0 Hs) as Hscan.
  pose proof (within_limit_ok _ Hlim) as Hex.
  simpl in Hs. apply andb_prop in Hs as [Hc _].
  unfold Builtins.int.
  assert (Hskip : Builtins.skip_spaces (String c s) = String c s).
  { simpl. by destruct (digit_char c Hc) as (_ & -> & _). }
  rewrite Hskip.
  assert (Hsign : match String c s with
                  | String "+" r => (1, r)
                  | String "-" r => (-1, r)
                  | _ => (1, String c s)
                  end = (1, String c s)).
  { by destruct c as [[] [] [] [] [] [] [] []]. }
  rewrite Hsign.
  assert (Hus : Builtins.starts_with_underscore (String c s) = false).
  { simpl. by destruct (digit_char c Hc) as (_ & _ & -> & _). }
  rewrite Hus, Hscan. simpl String.length in *.
  simpl Nat.add. cbv beta iota. simpl Nat.eqb. simpl Builtins.all_spaces.
  simpl negb. cbv iota. rewrite Hex.
  f_equal. lia.
Qed.

Lemma replace_grouped s :
  grouped_digits s = true → all_digits (Str.replace "," "" s) = true.
Proof.
  induction s as [|c s IH]; [done|]. simpl. intros H.
  apply andb_prop in H as [Hc Hs]. destruct (Ascii.eqb c ",") eqn:E.
  - by apply IH.
  - rewrite orb_false_r in Hc. simpl. by rewrite Hc, IH.
Qed.

Lemma replace_absent s :
  all_digits s = true → Str.replace "," "" s = s.
Proof.
  induction s as [|c s IH]; [done|]. simpl. intros H.
  apply andb_prop in H as [Hc Hs].
  destruct (digit_char c Hc) as (_ & _ & _ & ->). by rewrite IH.
Qed.

Lemma all_digits_grouped s : all_digits s = true → grouped_digits s = true.
Proof.
  induction s as [|c s IH]; [done|]. simpl. intros H.
  apply andb_prop in H as [-> Hs]. by rewrite IH.
Qed.

(** [parse_int] on digits with grouping commas: the commas are
    dropped and the digits are read. *)
Lemma parse_int_grouped s :
  grouped_digits s = true →
  Str.replace "," "" s ≠ "" →
  within_limit max_str_digits (String.length (Str.replace "," "" s)) →
  parse_int max_str_digits s = inr (decimal_value (Str.replace "," "" s)).
Proof.
  intros Hg Hne Hlim. unfold parse_int.
  destruct (String.eqb_spec s "") as [->|_]; [done|].
  apply int_digits; auto using replace_grouped.
Qed.

(** The literals [int] accepts and rejects. *)
Example int_samples :
  Builtins.int max_str_digits "1_000" = inr 1000
  ∧ Builtins.int max_str_digits "+5" = inr 5
  ∧ Builtins.int max_str_digits " -12 " = inr (-12)
  ∧ Builtins.int max_str_digits "007" = inr 7
  ∧ Builtins.int max_str_digits "" = inl Builtins.invalid_literal
  ∧ Builtins.int max_str_digits "-" = inl Builtins.invalid_literal
  ∧ Builtins.int max_str_digits "_5" = inl Builtins.invalid_literal
  ∧ Builtins.int max_str_digits "5_" = inl Builtins.invalid_literal
  ∧ Builtins.int max_str_digits "5__0" = inl Builtins.invalid_literal
  ∧ Builtins.int max_str_digits "- 5" = inl Builtins.invalid_literal
  ∧ Builtins.int max_str_digits "5 5" = inl Builtins.invalid_literal
  ∧ Builtins.int max_str_digits "0x10" = inl Builtins.invalid_literal.
Proof. by split_and!. Qed.

(** C6. [parse_int] maps the empty string to 0, "1,234" to 1234, and a
    digit string to the integer it denotes; more generally, digits
    with grouping commas to the integer the digits denote. *)
Theorem parse_int_spec :
  parse_int max_str_digits "" = inr 0
  ∧ parse_int max_str_digits "1,234" = inr 1234
  ∧ (∀ s, s ≠ "" → all_digits s = true →
          within_limit max_str_digits (String.length s) →
          parse_int max_str_digits s = inr (decimal_value s))
  ∧ (∀ s, grouped_digits s = true → Str.replace "," "" s ≠ "" →
          within_limit max_str_digits (String.length (Str.replace "," "" s)) →
          parse_int max_str_digits s
          = inr (decimal_value (Str.replace "," "" s))).
Proof.
  split_and!.
  - reflexivity.
  - reflexivity.
  - intros s Hne Hs Hlim.
    rewrite <- (replace_absent s Hs) at 2.
    apply parse_int_grouped; rewrite ?replace_absent by done;
      auto using all_digits_grouped.
  - apply parse_int_grouped.
Qed.

End Parsing.

(** Beyond the interpreter's limit [int] raises, whatever the digits. *)
Example parse_int_beyond_limit :
  (∃ n, parse_int 4300 (string_of_list_ascii (repeat "1"%char 4300)) = inr n)
  ∧ parse_int 4300 (string_of_list_ascii (repeat "1"%char 4301))
    = inl Builtins.limit_exceeded.
Proof.
  split.
  - eexists. vm_compute. reflexivity.
  - vm_compute. reflexivity.
Qed.

(** The limit is tested once the run of digits and underscores is
    read, before the text after it is looked at. *)
Example int_limit_order :
  parse_int 4300 (string_of_list_ascii (repeat "1"%char 4301) +:+ "x")
  = inl Builtins.limit_exceeded
  ∧ parse_int 4300 (string_of_list_ascii (repeat "1"%char 4301) +:+ "_")
    = inl Builtins.invalid_literal
  ∧ parse_int 4300 (string_of_list_ascii (repeat "1"%char 4300) +:+ "x")
    = inl Builtins.invalid_literal.
Proof. split_and!; vm_compute; reflexivity. Qed.

(** C6, at the digit string "2024" and at "12,345,678" under the default
    limit of 4300 digits. *)
Lemma parse_int_spec_witness :
  ("2024" ≠ "" ∧ all_digits "2024" = true
   ∧ within_limit 4300 (String.length "2024")
   ∧ parse_int 4300 "2024" = inr 2024)
  ∧ (grouped_digits "12,345,678" = true
     ∧ Str.replace "," "" "12,345,678" ≠ ""
     ∧ within_limit 4300 (String.length (Str.replace "," "" "12,345,678"))
     ∧ parse_int 4300 "12,345,678" = inr 12345678).
Proof.
  assert (H1 : "2024" ≠ "") by discriminate.
  assert (H2 : all_digits "2024" = true) by reflexivity.
  assert (H3 : within_limit 4300 (String.length "2024")) by (left; simpl; lia).
  assert (H4 : grouped_digits "12,345,678" = true) by reflexivity.
  assert (H5 : Str.replace "," "" "12,345,678" ≠ "") by discriminate.
  assert (H6 : within_limit 4300 (String.length (Str.replace "," "" "12,345,678")))
    by (left; simpl; lia).
  split.
  - split_and!; [exact H1 | exact H2 | exact H3 |].
    exact (proj1 (proj2 (proj2 (parse_int_spec 4300))) "2024" H1 H2 H3).
  - split_and!; [exact H4 | exact H5 | exact H6 |].
    exact (proj2 (proj2 (proj2 (parse_int_spec 4300))) "12,345,678" H4 H5 H6).
Defined.

(** ** Runs of the monad *)

Local Open Scope list_scope.

Section Runs.

Context {W : Type}.
Implicit Types st s : state W.

Lemma bind_Return {A B} (m : M W A) (k : A → M W B) st t s a :
  m st = mkResult t s (Return a) →
  (m ≫= k) st
  = mkResult (t ++ effects (k a s)) (final (k a s)) (ending (k a s)).
Proof. unfold mbind, M_bind. intros ->. by destruct (k a s). Qed.

Lemma bind_Raise {A B} (m : M W A) (k : A → M W B) st t s e :
  m st = mkResult t s (Raise e) → (m ≫= k) st = mkResult t s (Raise e).
Proof. unfold mbind, M_bind. by intros ->. Qed.

Lemma bind_SysExit {A B} (m : M W A) (k : A → M W B) st t s code :
  m st = mkResult t s (SysExit code) → (m ≫= k) st = mkResult t s (SysExit code).
Proof. unfold mbind, M_bind. by intros ->. Qed.

Lemma result_eta {A} (r : result W A) :
  r = mkResult (effects r) (final r) (ending r).
Proof. by destruct r. Qed.

Section Emits.
Variable P : effect → Prop.

Lemma emits_ret {A} (a : A) : emits P (mret a : M W A).
Proof. intros st. constructor. Qed.

Lemma emits_raise {A} e : emits P (raise e : M W A).
Proof. intros st. constructor. Qed.

Lemma emits_sys_exit {A} code : emits P (sys_exit code : M W A).
Proof. intros st. constructor. Qed.

Lemma emits_perform e : P e → emits P (perform e : M W unit).
Proof. intros He st. by repeat constructor. Qed.

Lemma emits_bind {A B} (m : M W A) (k : A → M W B) :
  emits P m → (∀ a, emits P (k a)) → emits P (m ≫= k).
Proof.
  intros Hm Hk st. specialize (Hm st).
  destruct (m st) as [t s [a|e|code]] eqn:E.
  - rewrite (bind_Return _ _ _ _ _ _ E). simpl.
    apply Forall_app. split; [done|apply Hk].
  - by rewrite (bind_Raise _ _ _ _ _ _ E).
  - by rewrite (bind_SysExit _ _ _ _ _ _ E).
Qed.

Lemma emits_fmap {A B} (f : A → B) (m : M W A) :
  emits P m → emits P (f <$> m).
Proof. intros Hm. apply emits_bind; [done|]. intros a. apply emits_ret. Qed.

Lemma emits_try {A} (body : M W A) handler :
  emits P body → (∀ e, emits P (handler e)) → emits P (try_except body handler).
Proof.
  intros Hm Hh st. specialize (Hm st). unfold try_except.
  destruct (body st) as [t s [a|e|code]]; try done.
  specialize (Hh e s). destruct (handler e s). simpl in *.
  apply Forall_app. by split.
Qed.

Lemma emits_getitem row key : emits P (getitem row key : M W string).
Proof. unfold getitem. destruct (row !! key); [apply emits_ret|apply emits_raise]. Qed.

Lemma emits_lift {A} (r : exn + A) : emits P (lift r : M W A).
Proof. destruct r; [apply emits_raise|apply emits_ret]. Qed.

Lemma emits_response_json r : emits P (response_json r : M W string).
Proof.
  unfold response_json. destruct (body_json r); [apply emits_ret|apply emits_raise].
Qed.
End Emits.

Lemma draws_ret {A} (a : A) : draws (mret a : M W A).
Proof. intros st. done. Qed.

Lemma draws_raise {A} e : draws (raise e : M W A).
Proof. intros st. done. Qed.

Lemma draws_sys_exit {A} code : draws (sys_exit code : M W A).
Proof. intros st. done. Qed.

Lemma draws_perform e : draws (perform e : M W unit).
Proof. intros st. done. Qed.

Lemma draws_bind {A B} (m : M W A) (k : A → M W B) :
  draws m → (∀ a, draws (k a)) → draws (m ≫= k).
Proof.
  intros Hm Hk st. specialize (Hm st).
  destruct (m st) as [t s [a|e|code]] eqn:E.
  - rewrite (bind_Return _ _ _ _ _ _ E). simpl in *.
    specialize (Hk a s). lia.
  - by rewrite (bind_Raise _ _ _ _ _ _ E).
  - by rewrite (bind_SysExit _ _ _ _ _ _ E).
Qed.

Lemma draws_fmap {A B} (f : A → B) (m : M W A) : draws m → draws (f <$> m).
Proof. intros Hm. apply draws_bind; [done|]. intros a. apply draws_ret. Qed.

Lemma draws_try {A} (body : M W A) handler :
  draws body → (∀ e, draws (handler e)) → draws (try_except body handler).
Proof.
  intros Hm Hh st. specialize (Hm st). unfold try_except.
  destruct (body st) as [t s [a|e|code]]; try done.
  specialize (Hh e s). destruct (handler e s). simpl in *. lia.
Qed.

Lemma draws_getitem row key : draws (getitem row key : M W string).
Proof. unfold getitem. destruct (row !! key); [apply draws_ret|apply draws_raise]. Qed.

Lemma draws_lift {A} (r : exn + A) : draws (lift r : M W A).
Proof. destruct r; [apply draws_raise|apply draws_ret]. Qed.

Lemma draws_response_json r : draws (response_json r : M W string).
Proof.
  unfold response_json. destruct (body_json r); [apply draws_ret|apply draws_raise].
Qed.

End Runs.

Create HintDb script discriminated.

#[export] Hint Resolve emits_ret emits_raise emits_sys_exit emits_getitem
  emits_lift emits_response_json emits_fmap
  draws_ret draws_raise draws_sys_exit draws_perform draws_getitem
  draws_lift draws_response_json draws_fmap : script.

(** Walk through a computation of the script, one construct at a time. *)
Ltac walk_step :=
  first
    [ progress intros
    | solve [auto with script]
    | apply emits_bind | apply emits_try | apply emits_perform
    | apply draws_bind | apply draws_try
    | match goal with
      | |- emits _ (match ?x with _ => _ end) => destruct x
      | |- draws (match ?x with _ => _ end) => destruct x
      | |- emits _ (if ?x then _ else _) => destruct x
      | |- draws (if ?x then _ else _) => destruct x
      end ].

Ltac walk := repeat walk_step.

(** ** The phases of a row *)

Section Phases.

Context {W : Type} {client : OrbClient W} {runtime : Runtime}.

Implicit Types st s : state W.
Implicit Types row : Row.

Lemma emits_new_uuid P : emits P (new_uuid : M W string).
Proof. intros st. constructor. Qed.

Lemma draws_new_uuid : draws (new_uuid : M W string).
Proof. intros st. simpl. lia. Qed.

Lemma emits_now P : emits P (now_isoformat : M W string).
Proof. intros st. constructor. Qed.

Lemma draws_now : draws (now_isoformat : M W string).
Proof. intros st. done. Qed.

Lemma emits_call P {A} e (method : W → (exn + A) * W) :
  P e → emits P (call e method).
Proof.
  intros He st. unfold call.
  destruct (method (server st)) as [[x|a] w]; by repeat constructor.
Qed.

Lemma draws_call {A} e (method : W → (exn + A) * W) : draws (call e method).
Proof.
  intros st. unfold call. by destruct (method (server st)) as [[x|a] w].
Qed.

Hint Resolve emits_new_uuid draws_new_uuid emits_now draws_now draws_call : script.

Ltac phase :=
  repeat first
    [ walk_step
    | apply emits_call
    | reflexivity ].

Lemma fetch_customer_quiet row :
  emits (λ e, quiet e = true) (fetch_customer row).
Proof. unfold fetch_customer, customers_fetch_by_external_id, log. phase. Qed.

Lemma create_customer_quiet row :
  emits (λ e, quiet e = true) (create_customer row).
Proof. unfold create_customer, customers_create, log. phase. Qed.

Lemma resolve_customer_quiet row :
  emits (λ e, quiet e = true) (resolve_customer row).
Proof.
  unfold resolve_customer, log.
  pose proof fetch_customer_quiet. pose proof create_customer_quiet.
  phase.
Qed.

Lemma fetch_customer_draws row : draws (fetch_customer row).
Proof. unfold fetch_customer, customers_fetch_by_external_id, log. phase. Qed.

Lemma create_customer_draws row : draws (create_customer row).
Proof. unfold create_customer, customers_create, log. phase. Qed.

Lemma resolve_customer_draws row : draws (resolve_customer row).
Proof.
  unfold resolve_customer, log.
  pose proof fetch_customer_draws. pose proof create_customer_draws.
  phase.
Qed.

Lemma ingest_event_inner event :
  emits (λ e, inner e = true) (ingest_event event).
Proof. unfold ingest_event, events_ingest, log. phase. Qed.

Lemma ingest_event_draws event : draws (ingest_event event).
Proof. unfold ingest_event, events_ingest, log. phase. Qed.

Lemma report_quiet row response :
  emits (λ e, quiet e = true) (report row response : M W unit).
Proof. unfold report, log. phase. Qed.

Lemma report_inner row response :
  emits (λ e, inner e = true) (report row response : M W unit).
Proof. unfold report, log. phase. Qed.

Lemma report_draws row response : draws (report row response : M W unit).
Proof. unfold report, log. phase. Qed.

(** Run the constructs of the monad on the state at hand. *)
Ltac exec :=
  cbv [mbind M_bind mret M_ret fmap M_fmap try_except raise sys_exit perform
       log getitem lift response_json call new_uuid now_isoformat sleep
       customers_fetch_by_external_id customers_create events_ingest];
  cbn.

(** Case on the next cell the script reads, or on its parse. *)
Ltac cell :=
  match goal with
  | |- context [@lookup _ _ _ _ ?k ?r] => destruct (r !! k) eqn:?
  | |- context [parse_int ?m ?v] => destruct (parse_int m v) eqn:?
  end.

(** *** The lookup *)

Lemma fetch_customer_fatal row st a e w :
  row !! "account_id" = Some a →
  fetch_by_external_id (server st) a = (inl e, w) →
  lookup_fatal e →
  ending (fetch_customer row st) = SysExit 1.
Proof.
  intros Ha Hf He. unfold fetch_customer. exec. rewrite Ha. exec.
  rewrite Hf. by destruct He as [[c ->]|[m ->]].
Qed.

Lemma fetch_customer_not_found row st a r w :
  row !! "account_id" = Some a →
  fetch_by_external_id (server st) a = (inl (APIStatusError 404 r), w) →
  fetch_customer row st
  = mkResult
      [FetchByExternalId a;
       Log ERROR "Another non-200-range status code was received" [];
       Log ERROR "Status was 404, customer not found, creating new customer" []]
      (mkState w (drawn st) (ticks st)) (Return None).
Proof.
  intros Ha Hf. unfold fetch_customer. exec. rewrite Ha. exec. by rewrite Hf.
Qed.

Lemma fetch_customer_found row st a c w :
  row !! "account_id" = Some a →
  fetch_by_external_id (server st) a = (inr c, w) →
  fetch_customer row st
  = mkResult [FetchByExternalId a] (mkState w (drawn st) (ticks st))
             (Return (Some c)).
Proof.
  intros Ha Hf. unfold fetch_customer. exec. rewrite Ha. exec. by rewrite Hf.
Qed.

(** *** The creation *)

Lemma create_customer_call row st a :
  row !! "account_id" = Some a →
  create_calls (effects (create_customer row st))
  = [(a, customer_name a, customer_email a, uuid4 (drawn st))]
  ∧ ∀ c, ending (create_customer row st) = Return c →
         ∃ w, create (server st) a (customer_name a) (customer_email a)
                     (uuid4 (drawn st)) = (inr c, w).
Proof.
  intros Ha. unfold create_customer. exec. rewrite Ha. exec.
  destruct (create (server st) a (customer_name a) (customer_email a)
                   (uuid4 (drawn st))) as [[e|c] w] eqn:Hc.
  - destruct e as [cause|message|code [[body|]]|key|message| |message];
      exec; split; try done; intros c; discriminate.
  - exec. split; [done|]. intros c' [= <-]. by exists w.
Qed.

(** *** The payload *)

Lemma build_event_effects row customer st :
  effects (build_event row customer st) = [].
Proof.
  unfold build_event. exec. repeat (cell; exec; try done).
Qed.

Lemma build_event_drawn row customer st :
  drawn (final (build_event row customer st))
  = S (drawn st).
Proof.
  unfold build_event. exec. repeat (cell; exec; try done).
Qed.

Lemma build_event_Return row customer st event :
  ending (build_event row customer st) = Return event →
  payload_of row customer st event.
Proof.
  unfold build_event. exec.
  destruct (row !! "transaction_id") as [tid|] eqn:H1; exec; [|done].
  destruct (row !! "account_type") as [aty|] eqn:H2; exec; [|done].
  destruct (row !! "bank_id") as [bid|] eqn:H3; exec; [|done].
  destruct (row !! "standard") as [std|] eqn:H4; exec; [|done].
  destruct (parse_int max_str_digits std) as [e1|n1] eqn:H5; exec; [done|].
  destruct (row !! "sameday") as [sd|] eqn:H6; exec; [|done].
  destruct (parse_int max_str_digits sd) as [e2|n2] eqn:H7; exec; [done|].
  destruct (row !! "month") as [mon|] eqn:H8; exec; [|done].
  intros [= <-]. split; try done.
  exists tid, aty, bid, std, sd, mon, n1, n2. by rewrite H5, H7.
Qed.

Lemma build_event_bad_number row customer st e :
  bad_number row e →
  ending (build_event row customer st) = Raise e.
Proof.
  intros (tid & aty & bid & std & H1 & H2 & H3 & H4 & H).
  unfold build_event. exec. rewrite H1. exec. rewrite H2. exec.
  rewrite H3. exec. rewrite H4. exec.
  destruct H as [H5|(n & sd & H5 & H6 & H7)]; rewrite H5; exec; [done|].
  rewrite H6. exec. by rewrite H7.
Qed.

(** *** The submission *)

Lemma ingest_event_calls event st :
  ingest_calls (effects (ingest_event event st)) = [[event]].
Proof.
  unfold ingest_event. exec.
  destruct (ingest (server st) [event]) as [[e|r] w]; exec; [|done].
  by destruct e as [cause|message|code [[body|]]|key|message| |message].
Qed.

Lemma ingest_event_ok event st r w :
  ingest (server st) [event] = (inr r, w) →
  ingest_event event st
  = mkResult [IngestEvents [event]] (mkState w (drawn st) (ticks st))
             (Return (Some r)).
Proof. intros H. unfold ingest_event. exec. by rewrite H. Qed.

Lemma ingest_event_caught event st e w :
  ingest (server st) [event] = (inl e, w) →
  ¬ undecodable e →
  ending (ingest_event event st) = Return None
  ∧ final (ingest_event event st) = mkState w (drawn st) (ticks st).
Proof.
  intros H Hn. unfold ingest_event. exec. rewrite H.
  destruct e as [cause|message|code [[body|]]|key|message| |message];
    exec; try done.
  destruct Hn. by exists code, (mkResponse None).
Qed.

Lemma ingest_event_escapes event st e w :
  ingest (server st) [event] = (inl e, w) →
  undecodable e →
  ending (ingest_event event st) = Raise JSONDecodeError.
Proof.
  intros H (code & r & -> & Hr). unfold ingest_event. exec. rewrite H.
  exec. by rewrite Hr.
Qed.

End Phases.

(** ** A row, and the loop *)

Section Rows.

Context {W : Type} {client : OrbClient W} {runtime : Runtime}.

Implicit Types st s : state W.
Implicit Types row : Row.

(** The loop body, phase by phase. *)
Lemma process_row_eq row st :
  process_row row st =
  match resolve_customer row st with
  | mkResult t1 s1 (Return customer) =>
      match build_event row customer s1 with
      | mkResult t2 s2 (Return event) =>
          match ingest_event event s2 with
          | mkResult t3 s3 (Return response) =>
              match report row response s3 with
              | mkResult t4 s4 (Return _) =>
                  mkResult (row_start row :: t1 ++ t2 ++ attempt_line event
                              :: t3 ++ t4 ++ [Sleep throttle_delay])
                           s4 (Return tt)
              | mkResult t4 s4 (Raise e) =>
                  mkResult (row_start row :: t1 ++ t2 ++ attempt_line event :: t3 ++ t4)
                           s4 (Raise e)
              | mkResult t4 s4 (SysExit code) =>
                  mkResult (row_start row :: t1 ++ t2 ++ attempt_line event :: t3 ++ t4)
                           s4 (SysExit code)
              end
          | mkResult t3 s3 (Raise e) =>
              mkResult (row_start row :: t1 ++ t2 ++ attempt_line event :: t3)
                       s3 (Raise e)
          | mkResult t3 s3 (SysExit code) =>
              mkResult (row_start row :: t1 ++ t2 ++ attempt_line event :: t3)
                       s3 (SysExit code)
          end
      | mkResult t2 s2 (Raise e) =>
          mkResult (row_start row :: t1 ++ t2) s2 (Raise e)
      | mkResult t2 s2 (SysExit code) =>
          mkResult (row_start row :: t1 ++ t2) s2 (SysExit code)
      end
  | mkResult t1 s1 (Raise e) => mkResult (row_start row :: t1) s1 (Raise e)
  | mkResult t1 s1 (SysExit code) => mkResult (row_start row :: t1) s1 (SysExit code)
  end.
Proof.
  unfold process_row.
  cbv [mbind M_bind log perform sleep]. cbn.
  destruct (resolve_customer row st) as [t1 s1 [customer|e|code]]; try done.
  destruct (build_event row customer s1) as [t2 s2 [event|e|code]]; try done.
  destruct (ingest_event event s2) as [t3 s3 [response|e|code]]; try done.
  destruct (report row response s3) as [t4 s4 [[]|e|code]]; try done.
Qed.

(** *** Reading a trace *)

Lemma ingest_calls_app t1 t2 :
  ingest_calls (t1 ++ t2) = (ingest_calls t1 ++ ingest_calls t2)%list.
Proof. apply omap_app. Qed.

Lemma create_calls_app t1 t2 :
  create_calls (t1 ++ t2) = (create_calls t1 ++ create_calls t2)%list.
Proof. apply omap_app. Qed.

Lemma ingest_calls_cons e t :
  ingest_calls (e :: t)
  = match e with
    | IngestEvents events => events :: ingest_calls t
    | _ => ingest_calls t
    end.
Proof. by destruct e. Qed.

Lemma create_calls_cons e t :
  create_calls (e :: t)
  = match e with
    | CreateCustomer i n m k => (i, n, m, k) :: create_calls t
    | _ => create_calls t
    end.
Proof. by destruct e. Qed.

Lemma quiet_ingest_calls t :
  Forall (λ e, quiet e = true) t → ingest_calls t = [].
Proof.
  induction 1 as [|e t He _ IH]; [done|].
  rewrite ingest_calls_cons. by destruct e.
Qed.

Lemma inner_create_calls t :
  Forall (λ e, inner e = true) t → create_calls t = [].
Proof.
  induction 1 as [|e t He _ IH]; [done|].
  rewrite create_calls_cons. by destruct e.
Qed.

Lemma quiet_row_start t :
  Forall (λ e, quiet e = true) t → Forall (λ e, is_row_start e = false) t.
Proof.
  intros H. eapply Forall_impl; [exact H|]. intros e. simpl. unfold quiet.
  destruct (is_row_start e); [|done]. by rewrite !orb_true_r.
Qed.

Lemma inner_row_start t :
  Forall (λ e, inner e = true) t → Forall (λ e, is_row_start e = false) t.
Proof.
  intros H. eapply Forall_impl; [exact H|]. intros e. simpl. unfold inner.
  destruct (is_row_start e); [|done]. by rewrite orb_true_r.
Qed.

Lemma quiet_sleep t :
  Forall (λ e, quiet e = true) t → Forall (λ e, is_sleep e = false) t.
Proof.
  intros H. eapply Forall_impl; [exact H|]. intros e. simpl. unfold quiet.
  destruct (is_sleep e); [|done]. by rewrite orb_true_r.
Qed.

Lemma inner_sleep t :
  Forall (λ e, inner e = true) t → Forall (λ e, is_sleep e = false) t.
Proof.
  intros H. eapply Forall_impl; [exact H|]. intros e. simpl. unfold inner. by destruct (is_sleep e).
Qed.

(** *** One row *)

(** The facts on the phases, at the results a run goes through. *)
Ltac phases row st :=
  rewrite (process_row_eq row st);
  let Hq1 := fresh "Hq1" in let Hd1 := fresh "Hd1" in
  pose proof (resolve_customer_quiet row st) as Hq1;
  pose proof (resolve_customer_draws row st) as Hd1;
  destruct (resolve_customer row st) as [t1 s1 [customer|e1|code1]] eqn:E1;
  simpl in Hq1, Hd1;
  [ let Hb := fresh "Hb" in let He2 := fresh "He2" in let Hd2 := fresh "Hd2" in
    pose proof (build_event_Return row customer s1) as Hb;
    pose proof (build_event_effects row customer s1) as He2;
    pose proof (build_event_drawn row customer s1) as Hd2;
    destruct (build_event row customer s1) as [t2 s2 [event|e2|code2]] eqn:E2;
    simpl in Hb, He2, Hd2; subst t2;
    [ let Hc3 := fresh "Hc3" in let Hq3 := fresh "Hq3" in let Hd3 := fresh "Hd3" in
      specialize (Hb _ eq_refl);
      pose proof (ingest_event_calls event s2) as Hc3;
      pose proof (ingest_event_inner event s2) as Hq3;
      pose proof (ingest_event_draws event s2) as Hd3;
      destruct (ingest_event event s2) as [t3 s3 [response|e3|code3]] eqn:E3;
      simpl in Hc3, Hq3, Hd3;
      [ let Hq4 := fresh "Hq4" in let Hi4 := fresh "Hi4" in let Hd4 := fresh "Hd4" in
        pose proof (report_quiet row response s3) as Hq4;
        pose proof (report_inner row response s3) as Hi4;
        pose proof (report_draws row response s3) as Hd4;
        destruct (report row response s3) as [t4 s4 [[]|e4|code4]] eqn:E4;
        simpl in Hq4, Hi4, Hd4
      | | ]
    | | ]
  | | ];
  cbn [effects final ending].

Lemma ingest_calls_nil : ingest_calls [] = [].
Proof. done. Qed.

Lemma create_calls_nil : create_calls [] = [].
Proof. done. Qed.

Create Rewrite HintDb trace.
Hint Rewrite ingest_calls_nil ingest_calls_cons ingest_calls_app
     create_calls_nil create_calls_cons create_calls_app : trace.

Ltac read_trace :=
  unfold row_start, attempt_line;
  autorewrite with trace;
  cbn [app].

(** A row submits at most once; what it submits is the payload built
    for the customer the row resolved to. *)
Lemma process_row_submission row st :
  ingest_calls (effects (process_row row st)) = []
  ∨ ∃ t1 s1 customer event,
      resolve_customer row st = mkResult t1 s1 (Return customer)
      ∧ payload_of row customer s1 event
      ∧ ingest_calls (effects (process_row row st)) = [[event]]
      ∧ (drawn st ≤ drawn s1 < drawn (final (process_row row st)))%nat.
Proof.
  phases row st.
  1-5: right; exists t1, s1, customer, event;
    split_and!; [done | done | | lia | lia];
    read_trace;
    rewrite ?(quiet_ingest_calls t1), ?(quiet_ingest_calls t4), ?Hc3 by done;
    done.
  all: left; read_trace; rewrite ?(quiet_ingest_calls t1) by done; done.
Qed.

(** The effects of a row: the line of line 48, then effects among
    which there is neither another such line nor a pause, then the
    pause if and only if the row returns. *)
Lemma process_row_shape row st :
  ∃ t,
    Forall (λ e, is_row_start e = false) t
    ∧ Forall (λ e, is_sleep e = false) t
    ∧ effects (process_row row st)
      = row_start row
        :: t ++ match ending (process_row row st) with
                | Return _ => [Sleep throttle_delay]
                | _ => []
                end.
Proof.
  phases row st.
  1: exists (t1 ++ attempt_line event :: t3 ++ t4).
  2-3: exists (t1 ++ attempt_line event :: t3 ++ t4).
  4-5: exists (t1 ++ attempt_line event :: t3).
  6-9: exists t1.
  all: split_and!;
    [ repeat first [apply Forall_app; split | apply Forall_cons; split];
      auto using quiet_row_start, inner_row_start
    | repeat first [apply Forall_app; split | apply Forall_cons; split];
      auto using quiet_sleep, inner_sleep
    | cbn [app]; rewrite <- ?app_assoc, ?app_nil_r; cbn [app];
      rewrite <- ?app_assoc; done ].
Qed.

Lemma resolve_customer_fatal row st a e w :
  row !! "account_id" = Some a →
  fetch_by_external_id (server st) a = (inl e, w) →
  lookup_fatal e →
  ending (resolve_customer row st) = SysExit 1.
Proof.
  intros Ha Hf He.
  pose proof (fetch_customer_fatal row st a e w Ha Hf He) as H.
  unfold resolve_customer.
  cbv [mbind M_bind getitem log perform mret M_ret]. rewrite Ha.
  cbn -[fetch_customer create_customer].
  destruct (fetch_customer row st) as [t s o]. simpl in H. by subst o.
Qed.

(** *** The loop *)

Lemma for_each_row_cons row rest st :
  for_each_row (row :: rest) st =
  match process_row row st with
  | mkResult t s (Return _) =>
      mkResult (t ++ effects (for_each_row rest s))
               (final (for_each_row rest s)) (ending (for_each_row rest s))
  | mkResult t s (Raise e) => mkResult t s (Raise e)
  | mkResult t s (SysExit code) => mkResult t s (SysExit code)
  end.
Proof.
  cbn [for_each_row]. unfold mbind, M_bind.
  destruct (process_row row st) as [t s [[]|e|code]]; try done.
  by destruct (for_each_row rest s).
Qed.

Lemma for_each_row_app pre rest st0 t0 st :
  for_each_row pre st0 = mkResult t0 st (Return tt) →
  for_each_row (pre ++ rest) st0
  = mkResult (t0 ++ effects (for_each_row rest st))
             (final (for_each_row rest st)) (ending (for_each_row rest st)).
Proof.
  revert st0 t0. induction pre as [|row pre IH]; intros st0 t0.
  - intros [= <- <-]. simpl. by destruct (for_each_row rest st0).
  - rewrite <- app_comm_cons, !for_each_row_cons.
    destruct (process_row row st0) as [t s [[]|e|code]]; try done.
    destruct (for_each_row pre s) as [t' s' o'] eqn:E. simpl.
    intros [= <- <- ->]. rewrite (IH _ _ E). simpl. by rewrite app_assoc.
Qed.

Lemma main_eq rows st :
  main rows st =
  match for_each_row rows st with
  | mkResult t s (Return _) => mkResult (t ++ closing) s (Return tt)
  | mkResult t s (Raise e) => mkResult t s (Raise e)
  | mkResult t s (SysExit code) => mkResult t s (SysExit code)
  end.
Proof.
  unfold main, mbind, M_bind.
  by destruct (for_each_row rows st) as [t s [[]|e|code]].
Qed.

Lemma main_ingest_calls rows st :
  ingest_calls (effects (main rows st))
  = ingest_calls (effects (for_each_row rows st)).
Proof.
  rewrite main_eq.
  destruct (for_each_row rows st) as [t s [[]|e|code]]; try done.
  simpl. by rewrite ingest_calls_app, app_nil_r.
Qed.

(** *** Fatal errors of the lookup *)

(** C3. When the lookup of a row raises a connectivity error or a
    rate-limit error, the run ends with [sys.exit(1)], and the events
    submitted in the run are those of the rows before: none for this
    row, none for a later one. *)
Theorem lookup_failure_exits pre row post st0 t0 st a e w :
  for_each_row pre st0 = mkResult t0 st (Return tt) →
  row !! "account_id" = Some a →
  fetch_by_external_id (server st) a = (inl e, w) →
  lookup_fatal e →
  ending (main (pre ++ row :: post) st0) = SysExit 1
  ∧ ingest_calls (effects (main (pre ++ row :: post) st0)) = ingest_calls t0
  ∧ ingest_calls (effects (process_row row st)) = [].
Proof.
  intros Hpre Ha Hf He.
  pose proof (resolve_customer_fatal row st a e w Ha Hf He) as Hr.
  assert (Hrow : ending (process_row row st) = SysExit 1
                 ∧ ingest_calls (effects (process_row row st)) = []).
  { revert Hr. phases row st; try done. intros [= ->]. split; [done|].
    read_trace. by apply quiet_ingest_calls. }
  destruct Hrow as [Hend Hnone].
  rewrite main_ingest_calls, main_eq, (for_each_row_app _ _ _ _ _ Hpre).
  cbn [effects final ending]. rewrite for_each_row_cons.
  destruct (process_row row st) as [t s o]. simpl in Hend, Hnone. subst o.
  cbn [effects final ending]. by rewrite ingest_calls_app, Hnone, app_nil_r.
Qed.

(** *** A customer that is not found *)

Lemma resolve_customer_not_found row st a r w :
  row !! "account_id" = Some a →
  fetch_by_external_id (server st) a = (inl (APIStatusError 404 r), w) →
  let s := mkState w (drawn st) (ticks st) in
  create_calls (effects (resolve_customer row st))
  = create_calls (effects (create_customer row s))
  ∧ ending (resolve_customer row st) = ending (create_customer row s).
Proof.
  intros Ha Hf s.
  pose proof (fetch_customer_not_found row st a r w Ha Hf) as H.
  unfold resolve_customer.
  cbv [mbind M_bind getitem log perform mret M_ret]. rewrite Ha.
  cbn -[fetch_customer create_customer]. rewrite H. fold s.
  by destruct (create_customer row s) as [t' s' o'].
Qed.

(** C4. When the lookup of a row answers 404, the row makes exactly
    one creation call: for the row's account id, with the derived name
    and email and the token drawn for it; an event submitted for the
    row carries the id of the customer that this call returned. *)
Theorem not_found_creates_once row st a r w :
  row !! "account_id" = Some a →
  fetch_by_external_id (server st) a = (inl (APIStatusError 404 r), w) →
  create_calls (effects (process_row row st))
  = [(a, customer_name a, customer_email a, uuid4 (drawn st))]
  ∧ ∀ events,
      events ∈ ingest_calls (effects (process_row row st)) →
      ∃ customer w' event,
        create w a (customer_name a) (customer_email a) (uuid4 (drawn st))
        = (inr customer, w')
        ∧ events = [event]
        ∧ Event.customer_id event = Customer.id customer.
Proof.
  intros Ha Hf.
  destruct (resolve_customer_not_found row st a r w Ha Hf) as [Hc He].
  destruct (create_customer_call row (mkState w (drawn st) (ticks st)) a Ha)
    as [Hcall Hret].
  simpl in Hcall, Hret. rewrite Hcall in Hc. split.
  - revert Hc. phases row st; intros Hc; read_trace;
      rewrite ?(inner_create_calls t3), ?(inner_create_calls t4) by done;
      by rewrite ?app_nil_r.
  - intros events Hin.
    destruct (process_row_submission row st)
      as [Hnone|(t1 & s1 & customer & event & Hres & Hpay & Hcalls & _)].
    { rewrite Hnone in Hin. by apply elem_of_nil in Hin. }
    rewrite Hcalls in Hin. apply list_elem_of_singleton in Hin as ->.
    rewrite Hres in He. simpl in He. symmetry in He.
    destruct (Hret _ He) as [w' Hw'].
    exists customer, w', event. split_and!; [done|done|].
    by destruct Hpay.
Qed.

(** *** The payload that is submitted *)

(** C1, as the script has it. An event that a row submits is the only
    one of its call, and its [properties] are exactly the six entries
    [transaction_id], [account_type], [bank_id], [standard], [sameday]
    and [month]: the text cells as they are, [standard] and [sameday]
    as [parse_int] reads them, the empty cell as 0.  There is no
    [account_id] entry. *)
Theorem submitted_properties row st events :
  events ∈ ingest_calls (effects (process_row row st)) →
  ∃ event transaction_id account_type bank_id standard sameday month n1 n2,
    events = [event]
    ∧ row !! "transaction_id" = Some transaction_id
    ∧ row !! "account_type" = Some account_type
    ∧ row !! "bank_id" = Some bank_id
    ∧ row !! "standard" = Some standard
    ∧ row !! "sameday" = Some sameday
    ∧ row !! "month" = Some month
    ∧ parse_int max_str_digits standard = inr n1
    ∧ parse_int max_str_digits sameday = inr n2
    ∧ (standard = "" → n1 = 0%Z)
    ∧ (sameday = "" → n2 = 0%Z)
    ∧ Event.properties event
      = <["transaction_id" := VStr transaction_id]>
        (<["account_type" := VStr account_type]>
         (<["bank_id" := VStr bank_id]>
          (<["standard" := VInt n1]>
           (<["sameday" := VInt n2]>
            (<["month" := VStr month]> ∅)))))
    ∧ Event.properties event !! "account_id" = None.
Proof.
  intros Hin.
  destruct (process_row_submission row st)
    as [Hnone|(t1 & s1 & customer & event & Hres & Hpay & Hcalls & _)].
  { rewrite Hnone in Hin. by apply elem_of_nil in Hin. }
  rewrite Hcalls in Hin. apply list_elem_of_singleton in Hin as ->.
  destruct Hpay as [_ _ _ _ (tid & aty & bid & std & sd & mon & n1 & n2 & Hp)].
  destruct Hp as (H1 & H2 & H3 & H4 & H5 & H6 & H7 & H8 & H9).
  exists event, tid, aty, bid, std, sd, mon, n1, n2.
  split_and!; try done.
  - intros ->. by injection H7.
  - intros ->. by injection H8.
  - rewrite H9. by rewrite !lookup_insert_ne.
Qed.

(** *** One event per row, under its own token *)

Lemma process_row_draws row : draws (process_row row).
Proof. intros st. phases row st; lia. Qed.

Lemma for_each_row_draws rows : draws (for_each_row rows).
Proof.
  induction rows as [|row rows IH]; intros st; [done|].
  rewrite for_each_row_cons. pose proof (process_row_draws row st) as H.
  destruct (process_row row st) as [t s [[]|e|code]]; try done.
  simpl in *. specialize (IH s). lia.
Qed.

Lemma process_row_submits row st :
  ∃ events,
    submits st (final (process_row row st)) (effects (process_row row st)) events
    ∧ (length events ≤ 1)%nat.
Proof.
  destruct (process_row_submission row st)
    as [Hnone|(t1 & s1 & customer & event & Hres & Hpay & Hcalls & Hd)];
    unfold submits.
  - exists []. rewrite Hnone. split; [|simpl; lia]. split; [done|].
    exists []. split_and!; [done|constructor|constructor].
  - exists [event]. rewrite Hcalls. split; [|simpl; lia]. split; [done|].
    exists [drawn s1]. split_and!.
    + simpl. by rewrite (payload_key _ _ _ _ Hpay).
    + constructor; [exact Hd|constructor].
    + apply NoDup_singleton.
Qed.

Lemma submits_app st s s' t t' events events' :
  (drawn st ≤ drawn s)%nat → (drawn s ≤ drawn s')%nat →
  submits st s t events → submits s s' t' events' →
  submits st s' (t ++ t') (events ++ events').
Proof.
  intros Hd Hd' [Hc (ks & Hk & Hr & Hn)] [Hc' (ks' & Hk' & Hr' & Hn')].
  split.
  - by rewrite ingest_calls_app, fmap_app, Hc, Hc'.
  - exists (ks ++ ks'). split_and!.
    + by rewrite !fmap_app, Hk, Hk'.
    + apply Forall_app. split.
      * eapply Forall_impl; [exact Hr|]. simpl. lia.
      * eapply Forall_impl; [exact Hr'|]. simpl. lia.
    + apply NoDup_app. split_and!; [done| |done].
      intros k Hin Hin'.
      rewrite Forall_forall in Hr, Hr'.
      specialize (Hr _ Hin). specialize (Hr' _ Hin'). simpl in *. lia.
Qed.

Lemma for_each_row_submits rows st :
  ∃ events,
    submits st (final (for_each_row rows st)) (effects (for_each_row rows st)) events
    ∧ (length events ≤ length rows)%nat.
Proof.
  revert st. induction rows as [|row rows IH]; intros st.
  - exists []. split; [|done]. split; [done|].
    exists []. split_and!; [done|constructor|constructor].
  - rewrite for_each_row_cons.
    destruct (process_row_submits row st) as (events & Hs & Hl).
    pose proof (process_row_draws row st) as Hd.
    destruct (process_row row st) as [t s [[]|e|code]]; simpl in Hs, Hd.
    + destruct (IH s) as (events' & Hs' & Hl').
      pose proof (for_each_row_draws rows s) as Hd'.
      exists (events ++ events'). cbn [effects final]. split.
      * by apply (submits_app st s).
      * rewrite length_app. simpl. lia.
    + exists events. split; [done|simpl; lia].
    + exists events. split; [done|simpl; lia].
Qed.

(** C5. A row makes at most one ingest call; every ingest call of a
    run carries a single event, and there are no more of them than
    rows; the idempotency keys of the events submitted in a run are
    tokens of different draws of the generator, so that, when the
    generator does not repeat itself, no two of them are equal. *)
Theorem one_event_per_row rows st :
  (∀ row s, (length (ingest_calls (effects (process_row row s))) ≤ 1)%nat)
  ∧ Forall (λ events, length events = 1%nat)
           (ingest_calls (effects (main rows st)))
  ∧ (length (ingest_calls (effects (main rows st))) ≤ length rows)%nat
  ∧ (∃ ks, Event.idempotency_key <$> submitted (effects (main rows st))
           = uuid4 <$> ks
           ∧ NoDup ks)
  ∧ (Inj (=) (=) uuid4 →
     NoDup (Event.idempotency_key <$> submitted (effects (main rows st)))).
Proof.
  split.
  { intros row s. destruct (process_row_submits row s) as (events & [Hc _] & Hl).
    by rewrite Hc, length_fmap. }
  unfold submitted. rewrite main_ingest_calls.
  destruct (for_each_row_submits rows st) as (events & [Hc (ks & Hk & _ & Hn)] & Hl).
  rewrite Hc.
  replace (concat ((λ event, [event]) <$> events)) with events.
  2: { clear. induction events as [|ev events IH]; [done|]. simpl. by f_equal. }
  split_and!.
  - apply Forall_fmap. by apply Forall_true.
  - by rewrite length_fmap.
  - by exists ks.
  - intros Hinj. rewrite Hk. by apply NoDup_fmap_2.
Qed.

(** *** The pause between rows *)

Lemma no_start_in t l1 x l2 :
  Forall (λ e, is_row_start e = false) t →
  is_row_start x = true →
  t ≠ l1 ++ x :: l2.
Proof.
  intros Ht Hx ->. apply Forall_app in Ht as [_ Ht].
  apply Forall_cons in Ht as [Ht _]. congruence.
Qed.

Lemma split_at_start t rest l1 x l2 :
  Forall (λ e, is_row_start e = false) t →
  is_row_start x = true →
  t ++ rest = l1 ++ x :: l2 →
  ∃ l1', l1 = t ++ l1' ∧ rest = l1' ++ x :: l2.
Proof.
  intros Ht Hx. revert l1. induction Ht as [|y t Hy Ht IH]; intros l1 Heq.
  - by exists l1.
  - destruct l1 as [|z l1]; simpl in Heq.
    + injection Heq as -> _. congruence.
    + injection Heq as <- Heq. destruct (IH _ Heq) as (l1' & -> & ->).
      by exists l1'.
Qed.

(** In a trace of the loop, a row starts either first of all or right
    after the pause. *)
Lemma loop_trace_paced t :
  loop_trace t →
  ∀ t1 x t2, t = t1 ++ x :: t2 → is_row_start x = true →
             t1 = [] ∨ ∃ t0, t1 = t0 ++ [Sleep throttle_delay].
Proof.
  induction 1 as [t Ht|row t Ht|row t rest Ht Hrest IH]; intros t1 x t2 Heq Hx.
  - by destruct (no_start_in t t1 x t2).
  - destruct t1 as [|y t1]; [by left|]. injection Heq as _ Heq.
    by destruct (no_start_in t t1 x t2).
  - destruct t1 as [|y t1]; [by left|]. injection Heq as <- Heq.
    destruct (split_at_start _ _ _ _ _ Ht Hx Heq) as (l & -> & Hl).
    destruct l as [|z l]; simpl in Hl.
    + injection Hl as <- _. done.
    + injection Hl as <- Hl. right.
      destruct (IH _ _ _ Hl Hx) as [->|(t0 & ->)].
      * exists (row_start row :: t). by rewrite app_comm_cons.
      * exists (row_start row :: t ++ Sleep throttle_delay :: t0).
        by rewrite !app_comm_cons, <- !app_assoc.
Qed.

Lemma loop_trace_app t tail :
  loop_trace t → Forall (λ e, is_row_start e = false) tail →
  loop_trace (t ++ tail).
Proof.
  intros Ht Htail. induction Ht as [t Ht|row t Ht|row t rest Ht Hrest IH].
  - apply loop_done. by apply Forall_app.
  - apply loop_last. by apply Forall_app.
  - rewrite <- app_comm_cons, <- app_assoc, <- app_comm_cons.
    by apply loop_next.
Qed.

Lemma for_each_row_trace rows st :
  loop_trace (effects (for_each_row rows st)).
Proof.
  revert st. induction rows as [|row rows IH]; intros st.
  - apply loop_done. constructor.
  - rewrite for_each_row_cons.
    destruct (process_row_shape row st) as (t & Ht & _ & Heq).
    destruct (process_row row st) as [t' s [[]|e|code]]; simpl in Heq; subst t'.
    + cbn [effects]. rewrite <- app_comm_cons, <- app_assoc. simpl.
      apply loop_next; [done|apply IH].
    + cbn [effects]. rewrite app_nil_r. by apply loop_last.
    + cbn [effects]. rewrite app_nil_r. by apply loop_last.
Qed.

Lemma main_trace rows st : loop_trace (effects (main rows st)).
Proof.
  rewrite main_eq. pose proof (for_each_row_trace rows st) as H.
  destruct (for_each_row rows st) as [t s [[]|e|code]]; try done.
  cbn [effects] in *. apply loop_trace_app; [done|]. by repeat constructor.
Qed.

(** C9. A row that returns, whether its submission succeeded or was
    caught failing, ends with [time.sleep(1.5)]; in a run, every row
    but the first starts right after that pause; and the script pauses
    for no other duration. *)
Theorem throttle_between_rows :
  (∀ row st,
     ending (process_row row st) = Return tt →
     ∃ t, effects (process_row row st) = t ++ [Sleep (3 # 2)%Q])
  ∧ (∀ rows st t1 row t2,
       effects (main rows st) = t1 ++ row_start row :: t2 →
       t1 = [] ∨ ∃ t0, t1 = t0 ++ [Sleep (3 # 2)%Q])
  ∧ (∀ row st seconds,
       Sleep seconds ∈ effects (process_row row st) →
       seconds = (3 # 2)%Q ∧ ending (process_row row st) = Return tt).
Proof.
  split_and!.
  - intros row st Hend.
    destruct (process_row_shape row st) as (t & _ & _ & Heq).
    rewrite Hend in Heq. exists (row_start row :: t). by rewrite Heq.
  - intros rows st t1 row t2 Heq.
    by apply (loop_trace_paced _ (main_trace rows st) t1 (row_start row) t2).
  - intros row st seconds Hin.
    destruct (process_row_shape row st) as (t & _ & Hs & Heq).
    rewrite Heq in Hin. apply elem_of_cons in Hin as [Hin|Hin]; [done|].
    apply elem_of_app in Hin as [Hin|Hin].
    + rewrite Forall_forall in Hs. by specialize (Hs _ Hin).
    + destruct (ending (process_row row st)) as [[]|e|code];
        try by apply elem_of_nil in Hin.
      apply list_elem_of_singleton in Hin. by injection Hin as ->.
Qed.

End Rows.

(** ** Text that [parse_int] rejects *)

Section Rejected.

Variable limit : nat.

Lemma letter_char c :
  Str.is_cased c = true →
  Builtins.is_space c = false
  ∧ Builtins.digit_value c = None
  ∧ Ascii.eqb c "_" = false
  ∧ Ascii.eqb c "," = false
  ∧ Ascii.eqb c "+" = false
  ∧ Ascii.eqb c "-" = false.
Proof. by destruct c as [[] [] [] [] [] [] [] []]. Qed.

Lemma eqb_swap (c d : ascii) : Ascii.eqb d c = Ascii.eqb c d.
Proof. apply Ascii.eqb_sym. Qed.

Lemma skip_spaces_contains c s :
  Builtins.is_space c = false →
  Str.contains c (Builtins.skip_spaces s) = Str.contains c s.
Proof.
  intros Hc. induction s as [|d s IH]; [done|]. simpl.
  destruct (Builtins.is_space d) eqn:Hd; [|done]. rewrite IH.
  destruct (Ascii.eqb_spec d c) as [->|_]; [congruence|done].
Qed.

Lemma all_spaces_contains c s :
  Builtins.is_space c = false →
  Builtins.all_spaces s = true →
  Str.contains c s = false.
Proof.
  intros Hc. induction s as [|d s IH]; [done|]. simpl.
  intros [Hd Hs]%andb_prop. rewrite IH by done.
  destruct (Ascii.eqb_spec d c) as [->|_]; [congruence|done].
Qed.

Lemma scan_contains c s :
  Str.is_cased c = true →
  ∀ prev_us acc n v digits rest,
    Builtins.scan prev_us acc n s = Some (v, digits, rest) →
    Str.contains c s = Str.contains c rest.
Proof.
  intros Hc. destruct (letter_char c Hc) as (_ & Hd & Hu & _).
  induction s as [|d s IH]; intros prev_us acc n v digits rest; simpl.
  - destruct prev_us; [done|]. by intros [= _ _ <-].
  - destruct (Builtins.digit_value d) as [x|] eqn:Hx.
    + intros H. rewrite <- (IH _ _ _ _ _ _ H).
      destruct (Ascii.eqb_spec d c) as [->|_]; [congruence|done].
    + destruct (Ascii.eqb_spec d "_") as [->|_].
      * destruct prev_us; [done|]. intros H. rewrite <- (IH _ _ _ _ _ _ H).
        by rewrite eqb_swap, Hu.
      * destruct prev_us; [done|]. by intros [= _ _ <-].
Qed.

Lemma sign_contains c s :
  Str.is_cased c = true →
  ∃ sign rest,
    match s with
    | String "+" r => (1%Z, r)
    | String "-" r => ((-1)%Z, r)
    | _ => (1%Z, s)
    end = (sign, rest)
    ∧ Str.contains c rest = Str.contains c s.
Proof.
  intros Hc. destruct (letter_char c Hc) as (_ & _ & _ & _ & Hp & Hm).
  destruct s as [|d s]; [by eexists _, _|].
  destruct (Ascii.eqb_spec d "+") as [->|Hnp].
  { eexists _, _. split; [done|]. cbn [Str.contains]. by rewrite eqb_swap, Hp. }
  destruct (Ascii.eqb_spec d "-") as [->|Hnm].
  { eexists _, _. split; [done|]. cbn [Str.contains]. by rewrite eqb_swap, Hm. }
  exists 1%Z, (String d s). split; [|done].
  by destruct d as [[] [] [] [] [] [] [] []].
Qed.

(** [int] rejects a text with a letter in it. *)
Lemma int_rejects_letter c s :
  Str.is_cased c = true → Str.contains c s = true →
  ∃ e, Builtins.int limit s = inl e.
Proof.
  intros Hc Hs. destruct (letter_char c Hc) as (Hsp & _).
  unfold Builtins.int.
  destruct (sign_contains c (Builtins.skip_spaces s) Hc) as (sign & s2 & -> & H2).
  rewrite skip_spaces_contains in H2 by done. rewrite Hs in H2.
  destruct (Builtins.starts_with_underscore s2); [by eexists|].
  destruct (Builtins.scan false 0 0 s2) as [[[v digits] rest]|] eqn:Hscan;
    [|by eexists].
  rewrite (scan_contains c s2 Hc _ _ _ _ _ _ Hscan) in H2.
  destruct (digits =? 0)%nat; [by eexists|].
  destruct (Builtins.exceeds_limit limit digits); [by eexists|].
  destruct (Builtins.all_spaces rest) eqn:Hrest; simpl; [|by eexists].
  rewrite (all_spaces_contains c rest Hsp Hrest) in H2. done.
Qed.

Lemma replace_comma_contains c s :
  Ascii.eqb c "," = false →
  Str.contains c (Str.replace "," "" s) = Str.contains c s.
Proof.
  intros Hc. induction s as [|d s IH]; [done|]. simpl.
  destruct (Ascii.eqb_spec d ",") as [->|_].
  - change (Str.contains c (Str.replace "," "" s)
            = (Ascii.eqb "," c || Str.contains c s)).
    by rewrite IH, eqb_swap, Hc.
  - simpl. by rewrite IH.
Qed.

(** [parse_int] raises on a text with a letter in it. *)
Lemma parse_int_rejects_letter c s :
  Str.is_cased c = true → Str.contains c s = true →
  ∃ e, parse_int limit s = inl e.
Proof.
  intros Hc Hs. unfold parse_int.
  destruct (String.eqb_spec s "") as [->|_]; [done|].
  apply (int_rejects_letter c); [done|].
  destruct (letter_char c Hc) as (_ & _ & _ & Hcomma & _).
  by rewrite replace_comma_contains.
Qed.

End Rejected.

(** ** Rows that fail *)

Section Failures.

Context {W : Type} {client : OrbClient W} {runtime : Runtime}.

Implicit Types st s : state W.
Implicit Types row : Row.

(** C10. [parse_int] is partial: it raises on ",", and on every text
    with a letter in it.  It runs outside the [try] statements: when a
    row whose customer is resolved has a [standard] or [sameday] cell
    that [parse_int] rejects, the exception ends the run where the
    payload is built, with neither a submission nor a pause for the
    row and without the rows after it. *)
Theorem bad_number_aborts :
  parse_int max_str_digits "," = inl Builtins.invalid_literal
  ∧ (∀ c text, Str.is_cased c = true → Str.contains c text = true →
               ∃ e, parse_int max_str_digits text = inl e)
  ∧ (∀ pre row post st0 t0 st t1 s1 customer e,
       for_each_row pre st0 = mkResult t0 st (Return tt) →
       resolve_customer row st = mkResult t1 s1 (Return customer) →
       bad_number row e →
       ending (main (pre ++ row :: post) st0) = Raise e
       ∧ effects (main (pre ++ row :: post) st0) = t0 ++ row_start row :: t1
       ∧ ingest_calls (effects (main (pre ++ row :: post) st0))
         = ingest_calls t0).
Proof.
  split_and!; [done|apply parse_int_rejects_letter|].
  intros pre row post st0 t0 st t1 s1 customer e Hpre Hres Hbad.
  pose proof (build_event_bad_number row customer s1 e Hbad) as Hb.
  pose proof (build_event_effects row customer s1) as He.
  pose proof (resolve_customer_quiet row st) as Hq. rewrite Hres in Hq.
  simpl in Hq.
  rewrite main_ingest_calls, main_eq, (for_each_row_app _ _ _ _ _ Hpre).
  cbn [effects final ending]. rewrite for_each_row_cons, process_row_eq, Hres.
  destruct (build_event row customer s1) as [t2 s2 o2]. simpl in Hb, He.
  subst o2 t2. cbn [effects final ending]. rewrite app_nil_r.
  split_and!; [done|done|].
  rewrite ingest_calls_app, ingest_calls_cons. unfold row_start.
  by rewrite (quiet_ingest_calls t1), app_nil_r.
Qed.

(** An error of the submission that the handlers of lines 164-177 see
    through: the row is reported as failed, the pause is taken and the
    loop goes on with the next row. *)
Lemma ingestion_error_tolerated row rest st t1 s1 customer s2 event e w :
  resolve_customer row st = mkResult t1 s1 (Return customer) →
  build_event row customer s1 = mkResult [] s2 (Return event) →
  ingest (server s2) [event] = (inl e, w) →
  ¬ undecodable e →
  ∃ t transaction_id,
    process_row row st
    = mkResult (t ++ [failed_line transaction_id; Sleep throttle_delay])
               (mkState w (drawn s2) (ticks s2)) (Return tt)
    ∧ row !! "transaction_id" = Some transaction_id
    ∧ effects (for_each_row (row :: rest) st)
      = (t ++ [failed_line transaction_id; Sleep throttle_delay])
        ++ effects (for_each_row rest (mkState w (drawn s2) (ticks s2))).
Proof.
  intros Hres Hbuild Hing Hund.
  destruct (ingest_event_caught event s2 e w Hing Hund) as [Hend Hfin].
  pose proof (build_event_Return row customer s1 event) as Hpay.
  rewrite Hbuild in Hpay. specialize (Hpay eq_refl).
  destruct Hpay as [_ _ _ _ (tid & aty & bid & std & sd & mon & n1 & n2 & Htid & _)].
  rewrite for_each_row_cons, process_row_eq, Hres, Hbuild.
  destruct (ingest_event event s2) as [t3 s3 o3]. simpl in Hend, Hfin.
  subst o3 s3. unfold report, getitem. rewrite Htid.
  cbv [mbind M_bind mret M_ret log perform]. cbn.
  exists (row_start row :: t1 ++ attempt_line event :: t3), tid.
  split_and!; [|done|]; rewrite <- ?app_assoc; cbn [app];
    by rewrite <- ?app_assoc.
Qed.

(** A status error of the submission whose body is not JSON: line 174
    raises inside the handler, and the exception leaves the loop. *)
Lemma ingestion_error_escapes row rest st t1 s1 customer s2 event e w :
  resolve_customer row st = mkResult t1 s1 (Return customer) →
  build_event row customer s1 = mkResult [] s2 (Return event) →
  ingest (server s2) [event] = (inl e, w) →
  undecodable e →
  ending (for_each_row (row :: rest) st) = Raise JSONDecodeError
  ∧ effects (for_each_row (row :: rest) st) = effects (process_row row st)
  ∧ Forall (λ x, is_sleep x = false) (effects (process_row row st)).
Proof.
  intros Hres Hbuild Hing Hund.
  pose proof (ingest_event_escapes event s2 e w Hing Hund) as Hend.
  pose proof (ingest_event_inner event s2) as Hin.
  pose proof (resolve_customer_quiet row st) as Hq. rewrite Hres in Hq.
  simpl in Hq.
  rewrite for_each_row_cons, process_row_eq, Hres, Hbuild.
  destruct (ingest_event event s2) as [t3 s3 o3]. simpl in Hend, Hin.
  subst o3. cbn [effects final ending]. split_and!; [done|done|].
  apply Forall_cons. split; [done|]. apply Forall_app. split.
  - by apply quiet_sleep.
  - apply Forall_cons. split; [done|]. by apply inner_sleep.
Qed.

End Failures.

(** ** The script on the scripted platform *)

Section Scenarios.

#[local] Existing Instance Platform.client.
#[local] Existing Instance Platform.runtime.

Import Platform.

(** The end-to-end scenario: one row, an unknown customer, a creation
    and a submission that succeed. *)
Example end_to_end :
  main [acme_row] (start empty)
  = mkResult
      [row_start acme_row;
       Log DEBUG "Checking for customer with account_id: %s" [AStr "acme_corp"];
       FetchByExternalId "acme_corp";
       Log ERROR "Another non-200-range status code was received" [];
       Log ERROR "Status was 404, customer not found, creating new customer" [];
       Log DEBUG "Creating customer for account_id: %s" [AStr "acme_corp"];
       CreateCustomer "acme_corp" "Acme Corp" "admin@acme-corp.com" "uuid-0";
       attempt_line acme_event;
       IngestEvents [acme_event];
       Log DEBUG "Successfully ingested event for transaction %s" [AStr "T1"];
       Log DEBUG "Response: %s" [AResponse (mkIngestResponse "ok")];
       Sleep throttle_delay;
       Log DEBUG "Closing Orb client" [];
       CloseClient;
       Log DEBUG "Finished ingesting events" []]
      (mkState (Platform.mk ["acme_corp"] [] []) 2 1)
      (Return tt).
Proof. vm_compute. reflexivity. Qed.

(** C1, as stated, fails on the row of the end-to-end scenario: the
    row has an [account_id], the [properties] of the event submitted
    for it have no such entry. *)
Lemma properties_lack_account_id :
  ingest_calls (effects (process_row acme_row (start empty))) = [[acme_event]]
  ∧ acme_row !! "account_id" = Some "acme_corp"
  ∧ Event.properties acme_event !! "account_id" = None
  ∧ ¬ carries_all_fields acme_event.
Proof.
  split_and!.
  - vm_compute. reflexivity.
  - reflexivity.
  - reflexivity.
  - intros H. destruct (H "account_id") as [v Hv].
    + unfold row_fields. apply list_elem_of_here.
    + discriminate Hv.
Qed.

(** C1, on the row of the end-to-end scenario. *)
Lemma submitted_properties_witness :
  [acme_event] ∈ ingest_calls (effects (process_row acme_row (start empty)))
  ∧ ∃ event transaction_id account_type bank_id standard sameday month n1 n2,
      [acme_event] = [event]
      ∧ acme_row !! "transaction_id" = Some transaction_id
      ∧ acme_row !! "account_type" = Some account_type
      ∧ acme_row !! "bank_id" = Some bank_id
      ∧ acme_row !! "standard" = Some standard
      ∧ acme_row !! "sameday" = Some sameday
      ∧ acme_row !! "month" = Some month
      ∧ parse_int max_str_digits standard = inr n1
      ∧ parse_int max_str_digits sameday = inr n2
      ∧ (standard = "" → n1 = 0%Z)
      ∧ (sameday = "" → n2 = 0%Z)
      ∧ Event.properties event
        = <["transaction_id" := VStr transaction_id]>
          (<["account_type" := VStr account_type]>
           (<["bank_id" := VStr bank_id]>
            (<["standard" := VInt n1]>
             (<["sameday" := VInt n2]>
              (<["month" := VStr month]> ∅)))))
      ∧ Event.properties event !! "account_id" = None.
Proof.
  assert (Hin : [acme_event]
                ∈ ingest_calls (effects (process_row acme_row (start empty)))).
  { vm_compute. apply list_elem_of_here. }
  split; [exact Hin|].
  exact (submitted_properties acme_row (start empty) [acme_event] Hin).
Defined.

(** C2 fails on this run, against the comment of line 159: the gateway
    answers the submission of the first row with a 502 whose body is
    not JSON.  The handler of line 171 catches the status error and
    line 174 raises while logging the body: the row is not reported as
    failed, there is no pause, the second row is never looked up and
    the run ends with the exception. *)
Theorem bad_gateway_ends_run :
  main [acme_row; globex_row] (start outage)
  = mkResult
      [row_start acme_row;
       Log DEBUG "Checking for customer with account_id: %s" [AStr "acme_corp"];
       FetchByExternalId "acme_corp";
       Log ERROR "Another non-200-range status code was received" [];
       Log ERROR "Status was 404, customer not found, creating new customer" [];
       Log DEBUG "Creating customer for account_id: %s" [AStr "acme_corp"];
       CreateCustomer "acme_corp" "Acme Corp" "admin@acme-corp.com" "uuid-0";
       attempt_line acme_event;
       IngestEvents [acme_event];
       Log ERROR "Another non-200-range status code was received" [];
       Log ERROR "Status code: %s" [AInt 502]]
      (mkState (Platform.mk ["acme_corp"] [] []) 2 1)
      (Raise JSONDecodeError).
Proof. vm_compute. reflexivity. Qed.

(** By contrast, a rate-limit answer to the same submission is
    tolerated: the row is reported as failed and the second row is
    processed. *)
Example rate_limit_tolerated :
  let r := main [acme_row; globex_row]
                (start (Platform.mk [] [] [Some (RateLimitError "slow down")])) in
  ending r = Return tt
  ∧ failed_line "T1" ∈ effects r
  ∧ FetchByExternalId "globex" ∈ effects r.
Proof.
  split_and!.
  - vm_compute. reflexivity.
  - vm_compute. do 10 apply list_elem_of_further. apply list_elem_of_here.
  - vm_compute. do 14 apply list_elem_of_further. apply list_elem_of_here.
Qed.

(** C3, on a run of three rows in which the platform cannot be
    reached at the second lookup. *)
Lemma lookup_failure_exits_witness :
  let st0 := start unreachable in
  let t0 := effects (for_each_row [acme_row] st0) in
  let st := final (for_each_row [acme_row] st0) in
  let e := APIConnectionError "timed out" in
  let w := Platform.mk ["acme_corp"] [] [] in
  for_each_row [acme_row] st0 = mkResult t0 st (Return tt)
  ∧ globex_row !! "account_id" = Some "globex"
  ∧ fetch_by_external_id (server st) "globex" = (inl e, w)
  ∧ lookup_fatal e
  ∧ ending (main ([acme_row] ++ globex_row :: [acme_row]) st0) = SysExit 1
  ∧ ingest_calls (effects (main ([acme_row] ++ globex_row :: [acme_row]) st0))
    = ingest_calls t0
  ∧ ingest_calls (effects (process_row globex_row st)) = [].
Proof.
  intros st0 t0 st e w.
  assert (H1 : for_each_row [acme_row] st0 = mkResult t0 st (Return tt))
    by (vm_compute; reflexivity).
  assert (H2 : globex_row !! "account_id" = Some "globex") by reflexivity.
  assert (H3 : fetch_by_external_id (server st) "globex" = (inl e, w))
    by (vm_compute; reflexivity).
  assert (H4 : lookup_fatal e) by (left; exists "timed out"; reflexivity).
  split_and!; [exact H1 | exact H2 | exact H3 | exact H4 | ..];
    apply (lookup_failure_exits [acme_row] globex_row [acme_row]
                                st0 t0 st "globex" e w H1 H2 H3 H4).
Defined.

(** C4, on the row of the end-to-end scenario. *)
Lemma not_found_creates_once_witness :
  let st := start empty in
  let r := mkResponse (Some "{}") in
  acme_row !! "account_id" = Some "acme_corp"
  ∧ fetch_by_external_id (server st) "acme_corp"
    = (inl (APIStatusError 404 r), empty)
  ∧ create_calls (effects (process_row acme_row st))
    = [("acme_corp", customer_name "acme_corp", customer_email "acme_corp",
        uuid4 (drawn st))]
  ∧ ∀ events,
      events ∈ ingest_calls (effects (process_row acme_row st)) →
      ∃ customer w' event,
        create empty "acme_corp" (customer_name "acme_corp")
               (customer_email "acme_corp") (uuid4 (drawn st))
        = (inr customer, w')
        ∧ events = [event]
        ∧ Event.customer_id event = Customer.id customer.
Proof.
  intros st r.
  assert (H1 : acme_row !! "account_id" = Some "acme_corp") by reflexivity.
  assert (H2 : fetch_by_external_id (server st) "acme_corp"
               = (inl (APIStatusError 404 r), empty)) by reflexivity.
  split_and!; [exact H1 | exact H2 | ..];
    apply (not_found_creates_once acme_row st "acme_corp" r empty H1 H2).
Defined.

Lemma platform_tokens_distinct : Inj (=) (=) (@uuid4 Platform.runtime).
Proof.
  intros n m H. simpl in H. injection H as H.
  by apply (inj pretty).
Qed.

(** C5, on a run of two rows. *)
Lemma one_event_per_row_witness :
  Inj (=) (=) (@uuid4 Platform.runtime)
  ∧ NoDup (Event.idempotency_key
             <$> submitted (effects (main [acme_row; globex_row] (start empty)))).
Proof.
  split; [exact platform_tokens_distinct|].
  exact (proj2 (proj2 (proj2 (proj2
           (one_event_per_row [acme_row; globex_row] (start empty)))))
         platform_tokens_distinct).
Defined.

(** C9, on a run of two rows. *)
Lemma throttle_between_rows_witness :
  let st := start empty in
  let t1 := effects (process_row acme_row st) in
  let t2 := drop (S (length t1)) (effects (main [acme_row; globex_row] st)) in
  (ending (process_row acme_row st) = Return tt
   ∧ ∃ t, effects (process_row acme_row st) = t ++ [Sleep (3 # 2)%Q])
  ∧ (effects (main [acme_row; globex_row] st) = t1 ++ row_start globex_row :: t2
     ∧ (t1 = [] ∨ ∃ t0, t1 = t0 ++ [Sleep (3 # 2)%Q])).
Proof.
  intros st t1 t2.
  assert (H1 : ending (process_row acme_row st) = Return tt)
    by (vm_compute; reflexivity).
  assert (H2 : effects (main [acme_row; globex_row] st)
               = t1 ++ row_start globex_row :: t2)
    by (vm_compute; reflexivity).
  split.
  - split; [exact H1|].
    exact (proj1 throttle_between_rows acme_row st H1).
  - split; [exact H2|].
    exact (proj1 (proj2 throttle_between_rows)
                 [acme_row; globex_row] st t1 globex_row t2 H2).
Defined.

(** C10, on a run whose first row has "," for [standard]. *)
Lemma bad_number_aborts_witness :
  let st0 := start empty in
  let t1 := effects (resolve_customer bad_row st0) in
  let s1 := final (resolve_customer bad_row st0) in
  let customer := customer_of "acme_corp" in
  for_each_row [] st0 = mkResult [] st0 (Return tt)
  ∧ resolve_customer bad_row st0 = mkResult t1 s1 (Return customer)
  ∧ bad_number bad_row Builtins.invalid_literal
  ∧ ending (main ([] ++ bad_row :: [globex_row]) st0)
    = Raise Builtins.invalid_literal
  ∧ effects (main ([] ++ bad_row :: [globex_row]) st0)
    = [] ++ row_start bad_row :: t1
  ∧ ingest_calls (effects (main ([] ++ bad_row :: [globex_row]) st0))
    = ingest_calls [].
Proof.
  intros st0 t1 s1 customer.
  assert (H1 : for_each_row [] st0 = mkResult [] st0 (Return tt)) by reflexivity.
  assert (H2 : resolve_customer bad_row st0 = mkResult t1 s1 (Return customer))
    by (vm_compute; reflexivity).
  assert (H3 : bad_number bad_row Builtins.invalid_literal).
  { exists "T1", "checking", "B1", ",". split_and!; try reflexivity.
    left. reflexivity. }
  split_and!; [exact H1 | exact H2 | exact H3 | ..];
    apply (proj2 (proj2 bad_number_aborts)
                 [] bad_row [globex_row] st0 [] st0 t1 s1 customer
                 Builtins.invalid_literal H1 H2 H3).
Defined.

End Scenarios.


(** * Further properties of the script *)

(** ** How the script ends *)

Section Ending.

Context {W : Type} {client : OrbClient W} {runtime : Runtime}.

Implicit Types st s : state W.
Implicit Types row : Row.

Lemma ends_ret Q {A} (a : A) : ends Q (mret a : M W A).
Proof. intros st. exact I. Qed.

Lemma ends_raise (Q : exn → Prop) {A} e : Q e → ends Q (raise e : M W A).
Proof. intros He st. exact He. Qed.

Lemma ends_sys_exit Q {A} : ends Q (sys_exit 1 : M W A).
Proof. intros st. reflexivity. Qed.

Lemma ends_perform Q e : ends Q (perform e : M W unit).
Proof. intros st. exact I. Qed.

Lemma ends_bind Q {A B} (m : M W A) (k : A → M W B) :
  ends Q m → (∀ a, ends Q (k a)) → ends Q (m ≫= k).
Proof.
  intros Hm Hk st. specialize (Hm st).
  destruct (m st) as [t s [a|e|code]] eqn:E.
  - rewrite (bind_Return _ _ _ _ _ _ E). apply Hk.
  - by rewrite (bind_Raise _ _ _ _ _ _ E).
  - by rewrite (bind_SysExit _ _ _ _ _ _ E).
Qed.

Lemma ends_fmap Q {A B} (f : A → B) (m : M W A) : ends Q m → ends Q (f <$> m).
Proof. intros Hm. apply ends_bind; [done|]. intros a. apply ends_ret. Qed.


Lemma ends_weaken (Q Q' : exn → Prop) {A} (m : M W A) :
  (∀ e, Q e → Q' e) → ends Q m → ends Q' m.
Proof.
  intros HQ Hm st. specialize (Hm st).
  destruct (ending (m st)); auto.
Qed.



Lemma ends_getitem_any row key : ends (λ _, True) (getitem row key : M W string).
Proof.
  unfold getitem. destruct (row !! key); [apply ends_ret|by apply ends_raise].
Qed.

Lemma ends_response_json r : ends uncaught (response_json r : M W string).
Proof.
  unfold response_json. destruct (body_json r).
  - apply ends_ret.
  - apply ends_raise. right. by left.
Qed.

Lemma ends_parse v : ends uncaught (lift (parse_int max_str_digits v) : M W Z).
Proof.
  destruct (parse_int max_str_digits v) as [e|n] eqn:E; simpl.
  - apply ends_raise. right. right. by exists v.
  - apply ends_ret.
Qed.

Lemma ends_new_uuid Q : ends Q (new_uuid : M W string).
Proof. intros st. exact I. Qed.

Lemma ends_now Q : ends Q (now_isoformat : M W string).
Proof. intros st. exact I. Qed.


Create HintDb ending.

Hint Resolve ends_ret ends_sys_exit ends_perform ends_fmap ends_response_json
  ends_parse ends_new_uuid ends_now ends_getitem_any : ending.











End Ending.

(** ** The three ways a run ends *)

Section Outcome.

Context {W : Type} {client : OrbClient W} {runtime : Runtime}.

Implicit Types st s : state W.
Implicit Types row : Row.

Lemma int_error limit text e :
  Builtins.int limit text = inl e →
  e = Builtins.invalid_literal ∨ e = Builtins.limit_exceeded.
Proof.
  unfold Builtins.int.
  destruct (match Builtins.skip_spaces text with
            | String "+" r => (1%Z, r)
            | String "-" r => ((-1)%Z, r)
            | _ => (1%Z, Builtins.skip_spaces text)
            end) as [sign s2].
  destruct (Builtins.starts_with_underscore s2); [intros [= <-]; by left|].
  destruct (Builtins.scan false 0 0 s2) as [[[v digits] rest]|];
    [|intros [= <-]; by left].
  destruct (digits =? 0)%nat; [intros [= <-]; by left|].
  destruct (Builtins.exceeds_limit limit digits); [intros [= <-]; by right|].
  destruct (negb (Builtins.all_spaces rest)); [intros [= <-]; by left|done].
Qed.

Lemma parse_int_error limit text e :
  parse_int limit text = inl e →
  e = Builtins.invalid_literal ∨ e = Builtins.limit_exceeded.
Proof.
  unfold parse_int. destruct (String.eqb text ""); [done|]. apply int_error.
Qed.


End Outcome.

(** ** The resolution of the customer, case by case *)

(** Run the constructs of the monad on the state at hand. *)
Ltac run_script :=
  cbv [mbind M_bind mret M_ret fmap M_fmap try_except raise sys_exit perform
       log getitem lift response_json call new_uuid now_isoformat sleep
       customers_fetch_by_external_id customers_create events_ingest];
  cbn.

(** The facts on the phases of a row, at the results a run of the row
    goes through. *)
Ltac by_phases row st :=
  rewrite (process_row_eq row st);
  let Hq1 := fresh "Hq1" in let Hd1 := fresh "Hd1" in
  pose proof (resolve_customer_quiet row st) as Hq1;
  pose proof (resolve_customer_draws row st) as Hd1;
  destruct (resolve_customer row st) as [t1 s1 [customer|e1|code1]] eqn:E1;
  simpl in Hq1, Hd1;
  [ let Hb := fresh "Hb" in let He2 := fresh "He2" in let Hd2 := fresh "Hd2" in
    pose proof (build_event_Return row customer s1) as Hb;
    pose proof (build_event_effects row customer s1) as He2;
    pose proof (build_event_drawn row customer s1) as Hd2;
    destruct (build_event row customer s1) as [t2 s2 [event|e2|code2]] eqn:E2;
    simpl in Hb, He2, Hd2; subst t2;
    [ let Hc3 := fresh "Hc3" in let Hq3 := fresh "Hq3" in let Hd3 := fresh "Hd3" in
      specialize (Hb _ eq_refl);
      pose proof (ingest_event_calls event s2) as Hc3;
      pose proof (ingest_event_inner event s2) as Hq3;
      pose proof (ingest_event_draws event s2) as Hd3;
      destruct (ingest_event event s2) as [t3 s3 [response|e3|code3]] eqn:E3;
      simpl in Hc3, Hq3, Hd3;
      [ let Hq4 := fresh "Hq4" in let Hi4 := fresh "Hi4" in let Hd4 := fresh "Hd4" in
        pose proof (report_quiet row response s3) as Hq4;
        pose proof (report_inner row response s3) as Hi4;
        pose proof (report_draws row response s3) as Hd4;
        destruct (report row response s3) as [t4 s4 [[]|e4|code4]] eqn:E4;
        simpl in Hq4, Hi4, Hd4
      | | ]
    | | ]
  | | ];
  cbn [effects final ending].

Section Resolution.

Context {W : Type} {client : OrbClient W} {runtime : Runtime}.

Implicit Types st s : state W.
Implicit Types row : Row.

Lemma sleeps_app t1 t2 : sleeps (t1 ++ t2) = sleeps t1 ++ sleeps t2.
Proof. apply omap_app. Qed.

Lemma no_sleeps t : Forall (λ e, is_sleep e = false) t → sleeps t = [].
Proof.
  induction 1 as [|e t He _ IH]; [done|]. destruct e; try done.
Qed.

Lemma resolve_customer_missing row st :
  row !! "account_id" = None →
  resolve_customer row st = mkResult [] st (Raise (KeyError "account_id")).
Proof. intros Ha. unfold resolve_customer. run_script. by rewrite Ha. Qed.

Lemma resolve_customer_found row st a c w :
  row !! "account_id" = Some a →
  fetch_by_external_id (server st) a = (inr c, w) →
  resolve_customer row st
  = mkResult
      [Log DEBUG "Checking for customer with account_id: %s" [AStr a];
       FetchByExternalId a;
       Log DEBUG "Customer found: %s (ID: %s)" [AStr a; AStr (Customer.id c)]]
      (mkState w (drawn st) (ticks st)) (Return c).
Proof.
  intros Ha Hf. unfold resolve_customer, fetch_customer. run_script.
  rewrite Ha. run_script. by rewrite Hf.
Qed.

(** A lookup that fails otherwise than with a 404. *)
Lemma resolve_customer_error row st a e w :
  row !! "account_id" = Some a →
  fetch_by_external_id (server st) a = (inl e, w) →
  (∀ r, e ≠ APIStatusError 404 r) →
  create_calls (effects (resolve_customer row st)) = []
  ∧ (undecodable e → ending (resolve_customer row st) = Raise JSONDecodeError)
  ∧ (¬ undecodable e → ending (resolve_customer row st) = SysExit 1).
Proof.
  intros Ha Hf Hne. unfold resolve_customer, fetch_customer. run_script.
  rewrite Ha. run_script. rewrite Hf.
  destruct e as [cause|message|code [[body|]]|key|message| |message];
    run_script;
    try (split_and!; [done | by intros (c & r & [=] & _) | done]).
  - destruct (Z.eqb_spec code 404) as [->|_]; [by destruct (Hne (mkResponse (Some body)))|].
    run_script. split_and!; [done| |done]. by intros (c & r & [= _ <-] & [=]).
  - destruct (Z.eqb_spec code 404) as [->|_]; [by destruct (Hne (mkResponse None))|].
    run_script. split_and!; [done|done|]. intros []. by exists code, (mkResponse None).
Qed.

(** A creation that fails, after a lookup that answered 404. *)
Lemma resolve_customer_not_created row st a r w e w' :
  row !! "account_id" = Some a →
  fetch_by_external_id (server st) a = (inl (APIStatusError 404 r), w) →
  create w a (customer_name a) (customer_email a) (uuid4 (drawn st)) = (inl e, w') →
  (undecodable e → ending (resolve_customer row st) = Raise JSONDecodeError)
  ∧ (¬ undecodable e → ending (resolve_customer row st) = SysExit 1).
Proof.
  intros Ha Hf Hc.
  destruct (resolve_customer_not_found row st a r w Ha Hf) as [_ ->]. simpl.
  unfold create_customer. run_script. rewrite Ha. run_script. rewrite Hc.
  destruct e as [cause|message|code [[body|]]|key|message| |message];
    run_script;
    try (split; [by intros (c & r' & [=] & _) | done]).
  - split; [|done]. by intros (c & r' & [= _ <-] & [=]).
  - split; [done|]. intros []. by exists code, (mkResponse None).
Qed.

Lemma classic_undecodable e : undecodable e ∨ ¬ undecodable e.
Proof.
  destruct e as [cause|message|code [[body|]]|key|message| |message];
    try (right; by intros (c & r & [=] & _)).
  - right. by intros (c & r & [= _ <-] & [=]).
  - left. by exists code, (mkResponse None).
Qed.

End Resolution.

(** ** Rows that stop the run *)

Section Stops.

Context {W : Type} {client : OrbClient W} {runtime : Runtime}.

Implicit Types st s : state W.
Implicit Types row : Row.

Lemma process_row_Raise row st e :
  ending (resolve_customer row st) = Raise e →
  process_row row st
  = mkResult (row_start row :: effects (resolve_customer row st))
             (final (resolve_customer row st)) (Raise e).
Proof.
  intros H. rewrite process_row_eq.
  destruct (resolve_customer row st) as [t s o]. simpl in *. by subst o.
Qed.

Lemma process_row_SysExit row st code :
  ending (resolve_customer row st) = SysExit code →
  process_row row st
  = mkResult (row_start row :: effects (resolve_customer row st))
             (final (resolve_customer row st)) (SysExit code).
Proof.
  intros H. rewrite process_row_eq.
  destruct (resolve_customer row st) as [t s o]. simpl in *. by subst o.
Qed.

(** The run ends with the row that does not return. *)
Lemma run_stops pre row post st0 t0 st :
  for_each_row pre st0 = mkResult t0 st (Return tt) →
  (∀ u, ending (process_row row st) ≠ Return u) →
  effects (main (pre ++ row :: post) st0) = t0 ++ effects (process_row row st)
  ∧ final (main (pre ++ row :: post) st0) = final (process_row row st)
  ∧ match ending (process_row row st) with
    | Return _ => False
    | Raise e => ending (main (pre ++ row :: post) st0) = Raise e
    | SysExit code => ending (main (pre ++ row :: post) st0) = SysExit code
    end.
Proof.
  intros Hpre Hrow.
  rewrite main_eq, (for_each_row_app _ _ _ _ _ Hpre), for_each_row_cons.
  destruct (process_row row st) as [t s [u|e|code]]; [by destruct (Hrow u)|done..].
Qed.

(** A row without an [account_id] entry (a table without that column):
    the [KeyError] of line 51 ends the run at the row, right after the
    line of line 48 and before any call of the client for it; no row
    after it is processed. *)
Theorem missing_account_id pre row post st0 t0 st :
  for_each_row pre st0 = mkResult t0 st (Return tt) →
  row !! "account_id" = None →
  main (pre ++ row :: post) st0
  = mkResult (t0 ++ [row_start row]) st (Raise (KeyError "account_id")).
Proof.
  intros Hpre Ha.
  pose proof (resolve_customer_missing row st Ha) as Hres.
  assert (Hrow : process_row row st
                 = mkResult [row_start row] st (Raise (KeyError "account_id"))).
  { rewrite (process_row_Raise row st (KeyError "account_id")); by rewrite Hres. }
  destruct (run_stops pre row post st0 t0 st Hpre) as (He & Hf & Hend).
  { by rewrite Hrow. }
  rewrite Hrow in He, Hf, Hend. simpl in *.
  rewrite (result_eta (main _ _)). by rewrite He, Hf, Hend.
Qed.

(** How the payload fails to be built. *)
Lemma build_event_fails row customer st :
  (∃ event, ending (build_event row customer st) = Return event)
  ∨ ∃ e, ending (build_event row customer st) = Raise e
         ∧ ((∃ k, e = KeyError k ∧ k ∈ property_columns)
            ∨ e = Builtins.invalid_literal ∨ e = Builtins.limit_exceeded).
Proof.
  assert (Hk : ∀ k, In k property_columns → k ∈ property_columns).
  { intros k. apply list_elem_of_In. }
  unfold build_event. run_script.
  destruct (row !! "transaction_id") as [tid|]; run_script;
    [|right; eexists; split; [done|]; left; eexists; split; [done|];
      apply Hk; simpl; tauto].
  destruct (row !! "account_type") as [aty|]; run_script;
    [|right; eexists; split; [done|]; left; eexists; split; [done|];
      apply Hk; simpl; tauto].
  destruct (row !! "bank_id") as [bid|]; run_script;
    [|right; eexists; split; [done|]; left; eexists; split; [done|];
      apply Hk; simpl; tauto].
  destruct (row !! "standard") as [std|]; run_script;
    [|right; eexists; split; [done|]; left; eexists; split; [done|];
      apply Hk; simpl; tauto].
  destruct (parse_int max_str_digits std) as [e1|n1] eqn:H1; run_script;
    [right; eexists; split; [done|]; right; exact (parse_int_error _ std e1 H1)|].
  destruct (row !! "sameday") as [sd|]; run_script;
    [|right; eexists; split; [done|]; left; eexists; split; [done|];
      apply Hk; simpl; tauto].
  destruct (parse_int max_str_digits sd) as [e2|n2] eqn:H2; run_script;
    [right; eexists; split; [done|]; right; exact (parse_int_error _ sd e2 H2)|].
  destruct (row !! "month") as [mon|]; run_script;
    [|right; eexists; split; [done|]; left; eexists; split; [done|];
      apply Hk; simpl; tauto].
  left. by eexists.
Qed.

(** A row of a table that lacks one of the six columns of the payload
    (the line itself has a cell for every column of the header): the
    customer is resolved first (looked up and, when unknown, created on
    the platform), then a [KeyError] or, from a cell read before the
    missing one, a [ValueError] ends the row where the payload is built:
    nothing is submitted, no pause is taken. *)
Theorem missing_property_column row st t1 s1 customer k :
  resolve_customer row st = mkResult t1 s1 (Return customer) →
  k ∈ property_columns →
  row !! k = None →
  effects (process_row row st) = row_start row :: t1
  ∧ ingest_calls (effects (process_row row st)) = []
  ∧ ∃ e, ending (process_row row st) = Raise e
         ∧ ((∃ k', e = KeyError k' ∧ k' ∈ property_columns)
            ∨ e = Builtins.invalid_literal ∨ e = Builtins.limit_exceeded).
Proof.
  intros Hres Hk Hnone.
  pose proof (resolve_customer_quiet row st) as Hq. rewrite Hres in Hq.
  simpl in Hq.
  pose proof (build_event_effects row customer s1) as He.
  pose proof (build_event_Return row customer s1) as Hpay.
  destruct (build_event_fails row customer s1) as [[event Hev]|(e & Hev & Hcls)].
  { destruct (Hpay _ Hev)
      as [_ _ _ _ (tid & aty & bid & std & sd & mon & n1 & n2
                   & H1 & H2 & H3 & H4 & H5 & H6 & _)].
    unfold property_columns in Hk.
    repeat (apply elem_of_cons in Hk as [->|Hk]; [congruence|]).
    by apply elem_of_nil in Hk. }
  rewrite process_row_eq, Hres.
  destruct (build_event row customer s1) as [t2 s2 o2]. simpl in He, Hev.
  subst t2 o2. cbn [effects ending]. rewrite app_nil_r. split_and!; [done| |].
  - rewrite ingest_calls_cons. unfold row_start. by apply quiet_ingest_calls.
  - by exists e.
Qed.

End Stops.

(** ** The paths of a row *)

Section Paths.

Context {W : Type} {client : OrbClient W} {runtime : Runtime}.

Implicit Types st s : state W.
Implicit Types row : Row.

Create Rewrite HintDb calls.

Hint Rewrite ingest_calls_nil ingest_calls_cons ingest_calls_app
  create_calls_nil create_calls_cons create_calls_app : calls.

Ltac read_calls :=
  unfold row_start, attempt_line;
  autorewrite with calls;
  cbn [app].

(** Only the resolution of the customer creates. *)
Lemma process_row_create_calls row st :
  create_calls (effects (process_row row st))
  = create_calls (effects (resolve_customer row st)).
Proof.
  by_phases row st; read_calls;
    rewrite ?(inner_create_calls t3), ?(inner_create_calls t4) by done;
    by rewrite ?app_nil_r.
Qed.

(** A customer that the platform knows is used as it is: the row makes
    no creation call, and an event submitted for the row carries the id
    of the customer found and the first token drawn for the row. *)
Theorem found_customer_is_used row st a c w :
  row !! "account_id" = Some a →
  fetch_by_external_id (server st) a = (inr c, w) →
  create_calls (effects (process_row row st)) = []
  ∧ ∀ events,
      events ∈ ingest_calls (effects (process_row row st)) →
      ∃ event,
        events = [event]
        ∧ Event.customer_id event = Customer.id c
        ∧ Event.idempotency_key event = uuid4 (drawn st).
Proof.
  intros Ha Hf. pose proof (resolve_customer_found row st a c w Ha Hf) as Hres.
  split.
  - by rewrite process_row_create_calls, Hres.
  - intros events Hin.
    destruct (process_row_submission row st)
      as [Hnone|(t1 & s1 & customer & event & Hres' & Hpay & Hcalls & _)].
    { rewrite Hnone in Hin. by apply elem_of_nil in Hin. }
    rewrite Hcalls in Hin. apply list_elem_of_singleton in Hin as ->.
    rewrite Hres in Hres'. injection Hres' as <- <- <-.
    exists event. destruct Hpay as [H1 _ H3 _ _]. by rewrite H1, H3.
Qed.

(** A lookup that raises anything but a 404 ends the run at the row:
    nothing is created, nothing is submitted, no pause is taken.  The
    run ends with [sys.exit(1)], unless the error is a status error
    whose body is not JSON: then line 81 raises. *)
Theorem lookup_error_stops row st a e w :
  row !! "account_id" = Some a →
  fetch_by_external_id (server st) a = (inl e, w) →
  (∀ r, e ≠ APIStatusError 404 r) →
  create_calls (effects (process_row row st)) = []
  ∧ ingest_calls (effects (process_row row st)) = []
  ∧ sleeps (effects (process_row row st)) = []
  ∧ (undecodable e → ending (process_row row st) = Raise JSONDecodeError)
  ∧ (¬ undecodable e → ending (process_row row st) = SysExit 1).
Proof.
  intros Ha Hf Hne.
  destruct (resolve_customer_error row st a e w Ha Hf Hne) as (Hc & Hu & Hn).
  pose proof (resolve_customer_quiet row st) as Hq.
  rewrite process_row_create_calls, Hc.
  assert (Hrow : ∃ o, process_row row st
                      = mkResult (row_start row :: effects (resolve_customer row st))
                                 (final (resolve_customer row st)) o
                      ∧ (undecodable e → o = Raise JSONDecodeError)
                      ∧ (¬ undecodable e → o = SysExit 1)).
  { destruct (classic_undecodable e) as [H|H].
    - exists (Raise JSONDecodeError). split_and!; [|done|done].
      by apply process_row_Raise, Hu.
    - exists (SysExit 1). split_and!; [|done|done].
      by apply process_row_SysExit, Hn. }
  destruct Hrow as (o & -> & Ho1 & Ho2). cbn [effects ending].
  split_and!; [done| | |done|done].
  - rewrite ingest_calls_cons. unfold row_start. by apply quiet_ingest_calls.
  - unfold row_start. apply (no_sleeps (_ :: _)), Forall_cons.
    split; [done|by apply quiet_sleep].
Qed.

End Paths.

(** ** The calls of a row, in order *)

Section Calls.

Context {W : Type} {client : OrbClient W} {runtime : Runtime}.

Implicit Types st s : state W.
Implicit Types row : Row.

(** A creation that fails ends the run at the row: nothing is
    submitted, no pause is taken.  The run ends with [sys.exit(1)],
    unless the error is a status error whose body is not JSON: then
    line 119 raises. *)
Theorem creation_error_stops row st a r w e w' :
  row !! "account_id" = Some a →
  fetch_by_external_id (server st) a = (inl (APIStatusError 404 r), w) →
  create w a (customer_name a) (customer_email a) (uuid4 (drawn st)) = (inl e, w') →
  ingest_calls (effects (process_row row st)) = []
  ∧ sleeps (effects (process_row row st)) = []
  ∧ (undecodable e → ending (process_row row st) = Raise JSONDecodeError)
  ∧ (¬ undecodable e → ending (process_row row st) = SysExit 1).
Proof.
  intros Ha Hf Hc.
  destruct (resolve_customer_not_created row st a r w e w' Ha Hf Hc) as (Hu & Hn).
  pose proof (resolve_customer_quiet row st) as Hq.
  assert (Hrow : ∃ o, process_row row st
                      = mkResult (row_start row :: effects (resolve_customer row st))
                                 (final (resolve_customer row st)) o
                      ∧ (undecodable e → o = Raise JSONDecodeError)
                      ∧ (¬ undecodable e → o = SysExit 1)).
  { destruct (classic_undecodable e) as [H|H].
    - exists (Raise JSONDecodeError). split_and!; [|done|done].
      by apply process_row_Raise, Hu.
    - exists (SysExit 1). split_and!; [|done|done].
      by apply process_row_SysExit, Hn. }
  destruct Hrow as (o & -> & Ho1 & Ho2). cbn [effects ending].
  split_and!; [ | |done|done].
  - rewrite ingest_calls_cons. unfold row_start. by apply quiet_ingest_calls.
  - unfold row_start. apply (no_sleeps (_ :: _)), Forall_cons.
    split; [done|by apply quiet_sleep].
Qed.

Lemma client_calls_app t1 t2 :
  client_calls (t1 ++ t2) = client_calls t1 ++ client_calls t2.
Proof. apply List.filter_app. Qed.

Lemma fetch_calls_app t1 t2 :
  fetch_calls (t1 ++ t2) = fetch_calls t1 ++ fetch_calls t2.
Proof. apply omap_app. Qed.

Lemma client_calls_log level fmt args t :
  client_calls (Log level fmt args :: t) = client_calls t.
Proof. done. Qed.

Lemma client_calls_sleep q : client_calls [Sleep q] = [].
Proof. done. Qed.

Lemma client_calls_nil : client_calls [] = [].
Proof. done. Qed.

Create Rewrite HintDb client.

Hint Rewrite client_calls_log client_calls_sleep client_calls_nil
  client_calls_app : client.

Ltac read_client_calls :=
  cbn [effects ending]; unfold row_start, attempt_line;
  autorewrite with client; cbn [app].

(** The calls of the resolution: the lookup, then the creation if the
    lookup answered 404. *)
Lemma resolve_customer_client_calls row st :
  match row !! "account_id" with
  | None =>
      client_calls (effects (resolve_customer row st)) = []
      ∧ fetch_calls (effects (resolve_customer row st)) = []
  | Some a =>
      fetch_calls (effects (resolve_customer row st)) = [a]
      ∧ (client_calls (effects (resolve_customer row st)) = [FetchByExternalId a]
         ∨ client_calls (effects (resolve_customer row st))
           = [FetchByExternalId a;
              CreateCustomer a (customer_name a) (customer_email a)
                             (uuid4 (drawn st))])
  end.
Proof.
  destruct (row !! "account_id") as [a|] eqn:Ha.
  2: { by rewrite (resolve_customer_missing row st Ha). }
  destruct (fetch_by_external_id (server st) a) as [[e|c] w] eqn:Hf.
  2: { rewrite (resolve_customer_found row st a c w Ha Hf). split; [done|by left]. }
  unfold resolve_customer, fetch_customer, create_customer. run_script.
  rewrite Ha. run_script. rewrite Hf.
  destruct e as [cause|message|code [[body|]]|key|message| |message];
    run_script; try (split; [done|by left]).
  all: destruct (code =? 404)%Z; run_script; try (split; [done|by left]).
  all: destruct (create w a (customer_name a) (customer_email a) (uuid4 (drawn st)))
         as [[e'|c'] w'];
       [destruct e' as [cause'|message'|code' [[body'|]]|key'|message'| |message']|];
       run_script; split; try done; by right.
Qed.

Lemma ingest_event_client_calls event st :
  client_calls (effects (ingest_event event st)) = [IngestEvents [event]].
Proof.
  unfold ingest_event. run_script.
  destruct (ingest (server st) [event]) as [[e|r] w]; run_script; [|done].
  by destruct e as [cause|message|code [[body|]]|key|message| |message].
Qed.

Lemma report_client_calls row response st :
  client_calls (effects (report row response st)) = [].
Proof.
  unfold report. run_script.
  destruct response; run_script; by destruct (row !! "transaction_id").
Qed.

(** The calls of a row are those of the resolution, then the
    submission if the row gets that far. *)
Lemma process_row_client_calls row st :
  ∃ ingests,
    client_calls (effects (process_row row st))
    = client_calls (effects (resolve_customer row st)) ++ ingests
    ∧ (ingests = [] ∨ ∃ event, ingests = [IngestEvents [event]])
    ∧ ((∀ c, ending (resolve_customer row st) ≠ Return c) → ingests = []).
Proof.
  rewrite process_row_eq.
  destruct (resolve_customer row st) as [t1 s1 [customer|e1|code1]];
    cbn [effects ending];
    [|exists []; rewrite app_nil_r; split_and!; [done|by left|done]..].
  pose proof (build_event_effects row customer s1) as He2.
  destruct (build_event row customer s1) as [t2 s2 [event|e2|code2]];
    simpl in He2; subst t2;
    [|exists []; rewrite !app_nil_r; split_and!; [done|by left| ]; intros H;
      by destruct (H customer)..].
  pose proof (ingest_event_client_calls event s2) as H3.
  destruct (ingest_event event s2) as [t3 s3 [response|e3|code3]]; simpl in H3.
  2,3: exists [IngestEvents [event]];
       split_and!; [|right; by exists event|intros H; by destruct (H customer)];
       read_client_calls; by rewrite H3.
  pose proof (report_client_calls row response s3) as H4.
  destruct (report row response s3) as [t4 s4 [[]|e4|code4]]; simpl in H4.
  all: exists [IngestEvents [event]];
       split_and!; [|right; by exists event|intros H; by destruct (H customer)];
       read_client_calls; rewrite H3, H4; by rewrite ?app_nil_r.
Qed.

(** The calls a row makes, in order: the lookup, at most one creation,
    at most one submission; without the lookup, nothing. *)
Theorem calls_in_order row st :
  ∃ fetches creates ingests,
    client_calls (effects (process_row row st)) = fetches ++ creates ++ ingests
    ∧ (fetches = []
       ∨ ∃ a, row !! "account_id" = Some a ∧ fetches = [FetchByExternalId a])
    ∧ (creates = []
       ∨ ∃ a, row !! "account_id" = Some a
              ∧ creates = [CreateCustomer a (customer_name a) (customer_email a)
                                          (uuid4 (drawn st))])
    ∧ (ingests = [] ∨ ∃ event, ingests = [IngestEvents [event]])
    ∧ (fetches = [] → creates = [] ∧ ingests = []).
Proof.
  pose proof (resolve_customer_client_calls row st) as Hres.
  destruct (process_row_client_calls row st) as (ingests & Hcalls & Hing & Hnone).
  destruct (row !! "account_id") as [a|] eqn:Ha.
  - destruct Hres as [_ [Hc|Hc]].
    + exists [FetchByExternalId a], [], ingests. rewrite Hcalls, Hc.
      split_and!; [done|right; by exists a|by left|done|done].
    + exists [FetchByExternalId a],
             [CreateCustomer a (customer_name a) (customer_email a) (uuid4 (drawn st))],
             ingests.
      rewrite Hcalls, Hc. split_and!; [done|right; by exists a|right; by exists a|done|done].
  - destruct Hres as [Hc _]. exists [], [], ingests. rewrite Hcalls, Hc.
    assert (ingests = []) as ->.
    { apply Hnone. intros c. by rewrite (resolve_customer_missing row st Ha). }
    split_and!; [done|by left|by left|by left|done].
Qed.

End Calls.


(** ** Runs that complete *)

#[export] Hint Resolve emits_new_uuid emits_now : script.

Create Rewrite HintDb observed.

Hint Rewrite ingest_calls_nil ingest_calls_cons ingest_calls_app
  create_calls_nil create_calls_cons create_calls_app : observed.

Ltac observe :=
  unfold row_start, attempt_line;
  autorewrite with observed;
  cbn [app].

Section Completed.

Context {W : Type} {client : OrbClient W} {runtime : Runtime}.

Implicit Types st s : state W.
Implicit Types row : Row.

Lemma fetch_calls_client t : fetch_calls (client_calls t) = fetch_calls t.
Proof.
  induction t as [|e t IH]; [done|]. destruct e; simpl; try done.
  unfold fetch_calls, client_calls in *. simpl. by rewrite IH.
Qed.

Lemma process_row_fetch_calls row st :
  fetch_calls (effects (process_row row st))
  = match row !! "account_id" with Some a => [a] | None => [] end.
Proof.
  rewrite <- fetch_calls_client.
  destruct (process_row_client_calls row st) as (ingests & -> & Hing & _).
  rewrite fetch_calls_app, fetch_calls_client.
  assert (fetch_calls ingests = []) as ->.
  { by destruct Hing as [->|[event ->]]. }
  rewrite app_nil_r.
  pose proof (resolve_customer_client_calls row st) as H.
  destruct (row !! "account_id"); by destruct H.
Qed.

(** A row that returns has made its lookup, has submitted one event,
    built from the row, and has paused once. *)
Lemma process_row_Return row st :
  ending (process_row row st) = Return tt →
  ∃ a event customer s1,
    row !! "account_id" = Some a
    ∧ fetch_calls (effects (process_row row st)) = [a]
    ∧ ingest_calls (effects (process_row row st)) = [[event]]
    ∧ sleeps (effects (process_row row st)) = [throttle_delay]
    ∧ payload_of row customer s1 event.
Proof.
  intros Hend.
  destruct (process_row_shape row st) as (t & _ & Hs & Heq).
  rewrite Hend in Heq.
  assert (Hsl : sleeps (effects (process_row row st)) = [throttle_delay]).
  { rewrite Heq. unfold row_start.
    change (sleeps (t ++ [Sleep throttle_delay]) = [throttle_delay]).
    by rewrite sleeps_app, (no_sleeps t Hs). }
  pose proof (process_row_fetch_calls row st) as Hf.
  destruct (process_row_submission row st)
    as [Hnone|(t1 & s1 & customer & event & Hres & Hpay & Hcalls & _)].
  - exfalso. revert Hend Hnone.
    by_phases row st; try done. intros _. observe.
    rewrite (quiet_ingest_calls t1), Hc3 by done. done.
  - destruct (row !! "account_id") as [a|] eqn:Ha.
    + by exists a, event, customer, s1.
    + by rewrite (resolve_customer_missing row st Ha) in Hres.
Qed.

Lemma for_each_row_Return rows st :
  ending (for_each_row rows st) = Return tt →
  Forall2 (λ row a, row !! "account_id" = Some a)
          rows (fetch_calls (effects (for_each_row rows st)))
  ∧ Forall2 (λ row events,
               ∃ event, events = [event]
                        ∧ Event.properties event !! "transaction_id"
                          = VStr <$> row !! "transaction_id")
            rows (ingest_calls (effects (for_each_row rows st)))
  ∧ sleeps (effects (for_each_row rows st))
    = replicate (length rows) throttle_delay.
Proof.
  revert st. induction rows as [|row rows IH]; intros st.
  - intros _. split_and!; [constructor|constructor|done].
  - rewrite for_each_row_cons.
    pose proof (process_row_Return row st) as Hrow.
    destruct (process_row row st) as [t s [[]|e|code]]; [|done..].
    cbn [effects final ending] in *. intros Hend.
    destruct (Hrow eq_refl) as (a & event & customer & s1 & Ha & Hf & Hi & Hs & Hpay).
    destruct (IH s Hend) as (IH1 & IH2 & IH3).
    rewrite fetch_calls_app, ingest_calls_app, sleeps_app, Hf, Hi, Hs, IH3.
    split_and!; [by constructor| |done].
    constructor; [|done]. exists event. split; [done|].
    destruct Hpay as [_ _ _ _ (tid & aty & bid & std & sd & mon & n1 & n2
                               & -> & _ & _ & _ & _ & _ & _ & _ & ->)].
    by rewrite lookup_insert_eq.
Qed.

(** A run that ends normally has looked up the customer of every row,
    in the order of the table, without remembering an earlier lookup;
    has made one ingest call per row, in that order, each with the one
    event of the row; and has paused for 1.5 once per row, and at no other time. *)
Theorem completed_run rows st :
  ending (main rows st) = Return tt →
  Forall2 (λ row a, row !! "account_id" = Some a)
          rows (fetch_calls (effects (main rows st)))
  ∧ Forall2 (λ row events,
               ∃ event, events = [event]
                        ∧ Event.properties event !! "transaction_id"
                          = VStr <$> row !! "transaction_id")
            rows (ingest_calls (effects (main rows st)))
  ∧ sleeps (effects (main rows st)) = replicate (length rows) (3 # 2)%Q.
Proof.
  rewrite main_eq. pose proof (for_each_row_Return rows st) as H.
  destruct (for_each_row rows st) as [t s [[]|e|code]]; [|done..].
  cbn [effects ending] in *. intros _.
  destruct (H eq_refl) as (H1 & H2 & H3).
  rewrite fetch_calls_app, ingest_calls_app, sleeps_app, H3.
  by rewrite !app_nil_r.
Qed.

End Completed.

(** ** The client is closed at the end only *)

Ltac script_emits :=
  repeat first [walk_step | apply emits_call | reflexivity].

Section Closing.

Context {W : Type} {client : OrbClient W} {runtime : Runtime}.

Implicit Types st s : state W.
Implicit Types row : Row.

Lemma process_row_never_closes row :
  emits (λ e, is_close e = false) (process_row row).
Proof.
  unfold process_row, resolve_customer, fetch_customer, create_customer,
    build_event, ingest_event, report, customers_fetch_by_external_id,
    customers_create, events_ingest, sleep, log.
  script_emits.
Qed.

Lemma for_each_row_never_closes rows :
  emits (λ e, is_close e = false) (for_each_row rows).
Proof.
  induction rows as [|row rows IH]; simpl.
  - apply emits_ret.
  - apply emits_bind; [apply process_row_never_closes|done].
Qed.

(** [client.close()] is called if and only if the run ends normally,
    and then once, after the last row: a run that ends with [sys.exit]
    or with an exception leaves the client open. *)
Theorem client_closed_iff rows st :
  (CloseClient ∈ effects (main rows st) ↔ ending (main rows st) = Return tt)
  ∧ (ending (main rows st) = Return tt →
     ∃ t, effects (main rows st) = t ++ closing
          ∧ Forall (λ e, is_close e = false) t).
Proof.
  rewrite main_eq. pose proof (for_each_row_never_closes rows st) as H.
  destruct (for_each_row rows st) as [t s [[]|e|code]]; cbn [effects ending] in *.
  - split; [|intros _; by exists t]. split; [done|]. intros _.
    apply elem_of_app. right. unfold closing.
    apply list_elem_of_further, list_elem_of_here.
  - split; [|done]. split; [|done]. intros Hin.
    rewrite Forall_forall in H. by specialize (H _ Hin).
  - split; [|done]. split; [|done]. intros Hin.
    rewrite Forall_forall in H. by specialize (H _ Hin).
Qed.

End Closing.

(** ** What is submitted in a run *)

Section Submitted.

Context {W : Type} {client : OrbClient W} {runtime : Runtime}.

Implicit Types st s : state W.
Implicit Types row : Row.

Lemma submitted_app t1 t2 : submitted (t1 ++ t2) = submitted t1 ++ submitted t2.
Proof. unfold submitted. by rewrite ingest_calls_app, concat_app. Qed.

(** Every event of a run is the payload of a row of the table. *)
Lemma for_each_row_payloads rows st :
  Forall (λ event, ∃ row customer s1,
                     row ∈ rows ∧ payload_of row customer s1 event)
         (submitted (effects (for_each_row rows st))).
Proof.
  revert st. induction rows as [|row rows IH]; intros st; [constructor|].
  rewrite for_each_row_cons.
  assert (Hrow : Forall (λ event, ∃ row' customer s1,
                                    row' ∈ row :: rows
                                    ∧ payload_of row' customer s1 event)
                        (submitted (effects (process_row row st)))).
  { unfold submitted.
    destruct (process_row_submission row st)
      as [->|(t1 & s1 & customer & event & _ & Hpay & -> & _)]; [constructor|].
    simpl. constructor; [|constructor].
    exists row, customer, s1. split; [apply list_elem_of_here|done]. }
  destruct (process_row row st) as [t s [[]|e|code]]; cbn [effects] in *; [|done..].
  rewrite submitted_app. apply Forall_app. split; [done|].
  eapply Forall_impl; [apply IH|]. intros event (row' & customer & s1 & Hin & Hpay).
  exists row', customer, s1. split; [by apply list_elem_of_further|done].
Qed.

(** Every event submitted in a run is a "payment_transaction" built
    from a row of the table: it has the six properties of lines 145-150
    and no other, the transaction id is the row's, and [standard] and
    [sameday] are integers. *)
Theorem submitted_events rows st :
  Forall (λ event,
            Event.event_name event = "payment_transaction"
            ∧ dom (Event.properties event) = list_to_set property_columns
            ∧ (∃ row, row ∈ rows
                      ∧ Event.properties event !! "transaction_id"
                        = VStr <$> row !! "transaction_id")
            ∧ (∃ n1 n2, Event.properties event !! "standard" = Some (VInt n1)
                        ∧ Event.properties event !! "sameday" = Some (VInt n2)))
         (submitted (effects (main rows st))).
Proof.
  assert (Hmain : submitted (effects (main rows st))
                  = submitted (effects (for_each_row rows st))).
  { unfold submitted. by rewrite main_ingest_calls. }
  rewrite Hmain. eapply Forall_impl; [apply for_each_row_payloads|].
  intros event (row & customer & s1 & Hin & Hpay).
  destruct Hpay as [_ _ _ Hname (tid & aty & bid & std & sd & mon & n1 & n2
                                & H1 & _ & _ & _ & _ & _ & _ & _ & Hp)].
  split_and!.
  - done.
  - rewrite Hp. rewrite !dom_insert_L, dom_empty_L. unfold property_columns.
    simpl. set_solver.
  - exists row. split; [done|]. by rewrite Hp, H1, lookup_insert_eq.
  - exists n1, n2. rewrite Hp. split.
    + do 3 (rewrite lookup_insert_ne by done). by rewrite lookup_insert_eq.
    + do 4 (rewrite lookup_insert_ne by done). by rewrite lookup_insert_eq.
Qed.

End Submitted.

(** ** More on [parse_int] and on the derived texts *)

Section Cells.

Variable limit : nat.

Lemma all_spaces_skip s :
  Builtins.all_spaces s = true → Builtins.skip_spaces s = "".
Proof.
  induction s as [|c s IH]; [done|]. simpl.
  intros [-> Hs]%andb_prop. by apply IH.
Qed.

Lemma int_blank s :
  Builtins.all_spaces s = true →
  Builtins.int limit s = inl Builtins.invalid_literal.
Proof. intros Hs. unfold Builtins.int. by rewrite (all_spaces_skip s Hs). Qed.

Lemma replace_blank s :
  blank_or_commas s = true →
  Builtins.all_spaces (Str.replace "," "" s) = true.
Proof.
  induction s as [|c s IH]; [done|]. simpl.
  intros [Hc Hs]%andb_prop. destruct (Ascii.eqb c ",") eqn:E.
  - by apply IH.
  - rewrite orb_false_r in Hc. simpl. by rewrite Hc, IH.
Qed.

(** A cell of blanks, of commas or of both is not read as empty: only
    the empty cell is 0, such a cell raises. *)
Theorem parse_int_blank s :
  s ≠ "" → blank_or_commas s = true →
  parse_int limit s = inl Builtins.invalid_literal.
Proof.
  intros Hne Hs. unfold parse_int.
  destruct (String.eqb_spec s "") as [->|_]; [done|].
  by apply int_blank, replace_blank.
Qed.

(** A sign in front of the digits is accepted: a negative cell is
    read as a negative number. *)
Theorem parse_int_signed s :
  s ≠ "" → all_digits s = true →
  within_limit limit (String.length s) →
  parse_int limit (String "-" s) = inr (- decimal_value s)%Z
  ∧ parse_int limit (String "+" s) = inr (decimal_value s).
Proof.
  intros Hne Hs Hlim. destruct s as [|c s]; [done|].
  pose proof (scan_digits (String c s) 0 0 Hs) as Hscan.
  pose proof (within_limit_ok _ _ Hlim) as Hex.
  pose proof (replace_absent _ Hs) as Hrep.
  assert (Hc : is_digit c = true).
  { simpl in Hs. by apply andb_prop in Hs as [Hc _]. }
  assert (Hus : Builtins.starts_with_underscore (String c s) = false).
  { simpl. by destruct (digit_char c Hc) as (_ & _ & -> & _). }
  assert (Hm : Str.replace "," "" (String "-" (String c s)) = String "-" (String c s)).
  { change (Str.replace "," "" (String "-" (String c s)))
      with (String "-" (Str.replace "," "" (String c s))). by rewrite Hrep. }
  assert (Hp : Str.replace "," "" (String "+" (String c s)) = String "+" (String c s)).
  { change (Str.replace "," "" (String "+" (String c s)))
      with (String "+" (Str.replace "," "" (String c s))). by rewrite Hrep. }
  unfold parse_int.
  change (String.eqb (String "-" (String c s)) "") with false.
  change (String.eqb (String "+" (String c s)) "") with false.
  cbv iota. rewrite Hm, Hp. unfold Builtins.int.
  change (Builtins.skip_spaces (String "-" (String c s)))
    with (String "-" (String c s)).
  change (Builtins.skip_spaces (String "+" (String c s)))
    with (String "+" (String c s)).
  cbv iota beta. rewrite Hus, Hscan.
  simpl String.length in *. simpl Nat.add. cbv beta iota. simpl Nat.eqb.
  simpl Builtins.all_spaces. simpl negb. cbv iota. rewrite Hex.
  split; f_equal; lia.
Qed.

Lemma string_map_app f (s1 s2 : string) :
  string_map f (s1 +:+ s2) = string_map f s1 +:+ string_map f s2.
Proof. induction s1 as [|c s1 IH]; [done|]. simpl. by rewrite IH. Qed.

(** The derived texts do not tell an underscore from its replacement:
    two account ids that differ by an underscore against a dash have
    the same email, by an underscore against a space the same name. *)
Theorem derived_texts_collide s1 s2 :
  customer_email (s1 +:+ String "_" s2) = customer_email (s1 +:+ String "-" s2)
  ∧ customer_name (s1 +:+ String "_" s2) = customer_name (s1 +:+ String " " s2).
Proof.
  unfold customer_email, customer_name.
  by rewrite !replace_char, !string_map_app.
Qed.

End Cells.

(** ** The tokens of a run *)

Section Tokens.

Context {W : Type} {client : OrbClient W} {runtime : Runtime}.

Implicit Types st s : state W.
Implicit Types row : Row.

(** A creation call carries the token drawn for it. *)
Lemma resolve_customer_token row st :
  creation_keys (effects (resolve_customer row st)) = []
  ∨ (creation_keys (effects (resolve_customer row st)) = [uuid4 (drawn st)]
     ∧ drawn (final (resolve_customer row st)) = S (drawn st)).
Proof.
  unfold creation_keys.
  destruct (row !! "account_id") as [a|] eqn:Ha.
  2: { left. by rewrite (resolve_customer_missing row st Ha). }
  destruct (fetch_by_external_id (server st) a) as [[e|c] w] eqn:Hf.
  2: { left. by rewrite (resolve_customer_found row st a c w Ha Hf). }
  unfold resolve_customer, fetch_customer, create_customer. run_script.
  rewrite Ha. run_script. rewrite Hf.
  destruct e as [cause|message|code [[body|]]|key|message| |message];
    run_script; try by left.
  all: destruct (code =? 404)%Z; run_script; try by left.
  all: destruct (create w a (customer_name a) (customer_email a) (uuid4 (drawn st)))
         as [[e'|c'] w'];
       [destruct e' as [cause'|message'|code' [[body'|]]|key'|message'| |message']|];
       run_script; by right.
Qed.

Lemma process_row_after_resolution row st :
  (drawn (final (resolve_customer row st)) ≤ drawn (final (process_row row st)))%nat.
Proof. by_phases row st; lia. Qed.

(** The tokens of the creation calls and of the events of a computation:
    tokens drawn during the computation, each used once. *)
Lemma process_row_tokens row st :
  ∃ ks1 ks2,
    creation_keys (effects (process_row row st)) = uuid4 <$> ks1
    ∧ Event.idempotency_key <$> submitted (effects (process_row row st))
      = uuid4 <$> ks2
    ∧ Forall (λ k, drawn st ≤ k < drawn (final (process_row row st)))%nat
             (ks1 ++ ks2)
    ∧ NoDup (ks1 ++ ks2).
Proof.
  pose proof (process_row_after_resolution row st) as Hafter.
  pose proof (process_row_draws row st) as Hdraws.
  pose proof (resolve_customer_draws row st) as Hres_draws.
  unfold creation_keys, submitted in *. rewrite process_row_create_calls.
  destruct (resolve_customer_token row st) as [Hk|[Hk Hd]];
    unfold creation_keys in Hk; rewrite Hk;
    destruct (process_row_submission row st)
      as [->|(t1 & s1 & customer & event & Hres & Hpay & -> & Hr)];
    rewrite ?Hres in *; simpl in *.
  - exists [], []. split_and!; [done|done|constructor|constructor].
  - exists [], [drawn s1]. rewrite (payload_key _ _ _ _ Hpay).
    split_and!; [done|done| |apply NoDup_singleton].
    constructor; [lia|constructor].
  - exists [drawn st], []. split_and!; [done|done| |apply NoDup_singleton].
    constructor; [lia|constructor].
  - exists [drawn st], [drawn s1]. rewrite (payload_key _ _ _ _ Hpay).
    split_and!; [done|done| |].
    + constructor; [lia|]. constructor; [lia|constructor].
    + apply NoDup_cons. split; [|apply NoDup_singleton].
      intros Hin%list_elem_of_singleton. lia.
Qed.

Lemma creation_keys_app t1 t2 :
  creation_keys (t1 ++ t2) = creation_keys t1 ++ creation_keys t2.
Proof. unfold creation_keys. by rewrite create_calls_app, fmap_app. Qed.

Lemma for_each_row_tokens rows st :
  ∃ ks1 ks2,
    creation_keys (effects (for_each_row rows st)) = uuid4 <$> ks1
    ∧ Event.idempotency_key <$> submitted (effects (for_each_row rows st))
      = uuid4 <$> ks2
    ∧ Forall (λ k, drawn st ≤ k < drawn (final (for_each_row rows st)))%nat
             (ks1 ++ ks2)
    ∧ NoDup (ks1 ++ ks2).
Proof.
  revert st. induction rows as [|row rows IH]; intros st.
  { exists [], []. split_and!; [done|done|constructor|constructor]. }
  rewrite for_each_row_cons.
  destruct (process_row_tokens row st) as (ks1 & ks2 & Hc & He & Hr & Hn).
  pose proof (process_row_draws row st) as Hd.
  destruct (process_row row st) as [t s [[]|e|code]]; cbn [effects final] in *;
    [|by exists ks1, ks2..].
  destruct (IH s) as (ks1' & ks2' & Hc' & He' & Hr' & Hn').
  pose proof (for_each_row_draws rows s) as Hd'.
  exists (ks1 ++ ks1'), (ks2 ++ ks2').
  rewrite creation_keys_app, submitted_app, !fmap_app, Hc, Hc', He, He'.
  assert (Hperm : (ks1 ++ ks1') ++ (ks2 ++ ks2') ≡ₚ (ks1 ++ ks2) ++ (ks1' ++ ks2')).
  { rewrite <- !app_assoc. f_equiv. rewrite !app_assoc. f_equiv.
    apply Permutation_app_comm. }
  split_and!; [done|done| |]; rewrite Hperm.
  - apply Forall_app. split.
    + eapply Forall_impl; [exact Hr|]. simpl. lia.
    + eapply Forall_impl; [exact Hr'|]. simpl. lia.
  - apply NoDup_app. split_and!; [done| |done].
    intros k Hin Hin'. rewrite Forall_forall in Hr, Hr'.
    specialize (Hr _ Hin). specialize (Hr' _ Hin'). simpl in *. lia.
Qed.

(** No token is used twice in a run: the idempotency keys of the
    creation calls and of the submitted events are tokens of different
    draws, so that, when the generator does not repeat itself, the key
    of a creation is never the key of an event or of another creation. *)
Theorem tokens_used_once rows st :
  (∃ ks1 ks2,
     creation_keys (effects (main rows st)) = uuid4 <$> ks1
     ∧ Event.idempotency_key <$> submitted (effects (main rows st)) = uuid4 <$> ks2
     ∧ NoDup (ks1 ++ ks2))
  ∧ (Inj (=) (=) uuid4 →
     NoDup (creation_keys (effects (main rows st))
            ++ (Event.idempotency_key <$> submitted (effects (main rows st))))).
Proof.
  assert (Hmain : creation_keys (effects (main rows st))
                  = creation_keys (effects (for_each_row rows st))
                  ∧ submitted (effects (main rows st))
                    = submitted (effects (for_each_row rows st))).
  { rewrite main_eq.
    destruct (for_each_row rows st) as [t s [[]|e|code]]; try done.
    cbn [effects]. rewrite creation_keys_app, submitted_app.
    by rewrite !app_nil_r. }
  destruct Hmain as [-> ->].
  destruct (for_each_row_tokens rows st) as (ks1 & ks2 & Hc & He & _ & Hn).
  split.
  - by exists ks1, ks2.
  - intros Hinj. rewrite Hc, He, <- fmap_app. by apply NoDup_fmap_2.
Qed.

End Tokens.


(** ** The further properties on the scripted platform *)

Section MoreScenarios.

#[local] Existing Instance Platform.runtime.

Import Platform.

(** A table without [account_id], after one complete row. *)
Lemma missing_account_id_witness :
  let st0 := start empty in
  let t0 := effects (for_each_row (client := Platform.client) [acme_row] st0) in
  let st := final (for_each_row (client := Platform.client) [acme_row] st0) in
  for_each_row (client := Platform.client) [acme_row] st0
  = mkResult t0 st (Return tt)
  ∧ anonymous_row !! "account_id" = None
  ∧ main (client := Platform.client) ([acme_row] ++ anonymous_row :: [globex_row]) st0
    = mkResult (t0 ++ [row_start anonymous_row]) st (Raise (KeyError "account_id")).
Proof.
  intros st0 t0 st.
  assert (H1 : for_each_row (client := Platform.client) [acme_row] st0
               = mkResult t0 st (Return tt)) by (vm_compute; reflexivity).
  assert (H2 : anonymous_row !! "account_id" = None) by reflexivity.
  split_and!; [exact H1 | exact H2 |].
  exact (missing_account_id (client := Platform.client)
           [acme_row] anonymous_row [globex_row] st0 t0 st H1 H2).
Defined.

(** A row without [month], of an unknown customer. *)
Lemma missing_property_column_witness :
  let st := start empty in
  let t1 := effects (resolve_customer (client := Platform.client) undated_row st) in
  let s1 := final (resolve_customer (client := Platform.client) undated_row st) in
  let customer := customer_of "acme_corp" in
  resolve_customer (client := Platform.client) undated_row st
  = mkResult t1 s1 (Return customer)
  ∧ "month" ∈ property_columns
  ∧ undated_row !! "month" = None
  ∧ effects (process_row (client := Platform.client) undated_row st)
    = row_start undated_row :: t1
  ∧ ingest_calls (effects (process_row (client := Platform.client) undated_row st)) = []
  ∧ ∃ e, ending (process_row (client := Platform.client) undated_row st) = Raise e
         ∧ ((∃ k', e = KeyError k' ∧ k' ∈ property_columns)
            ∨ e = Builtins.invalid_literal ∨ e = Builtins.limit_exceeded).
Proof.
  intros st t1 s1 customer.
  assert (H1 : resolve_customer (client := Platform.client) undated_row st
               = mkResult t1 s1 (Return customer)) by (vm_compute; reflexivity).
  assert (H2 : "month" ∈ property_columns).
  { apply list_elem_of_In. simpl. tauto. }
  assert (H3 : undated_row !! "month" = None) by reflexivity.
  split_and!; [exact H1 | exact H2 | exact H3 | ..];
    apply (missing_property_column (client := Platform.client)
             undated_row st t1 s1 customer "month" H1 H2 H3).
Defined.

(** A row of a customer that the platform knows. *)
Lemma found_customer_is_used_witness :
  let st := start known in
  let c := customer_of "acme_corp" in
  acme_row !! "account_id" = Some "acme_corp"
  ∧ fetch_by_external_id (OrbClient := Platform.client) (server st) "acme_corp"
    = (inr c, known)
  ∧ create_calls (effects (process_row (client := Platform.client) acme_row st)) = []
  ∧ ∀ events,
      events ∈ ingest_calls (effects (process_row (client := Platform.client) acme_row st)) →
      ∃ event,
        events = [event]
        ∧ Event.customer_id event = Customer.id c
        ∧ Event.idempotency_key event = uuid4 (drawn st).
Proof.
  intros st c.
  assert (H1 : acme_row !! "account_id" = Some "acme_corp") by reflexivity.
  assert (H2 : fetch_by_external_id (OrbClient := Platform.client) (server st) "acme_corp"
               = (inr c, known)) by reflexivity.
  split_and!; [exact H1 | exact H2 | ..];
    apply (found_customer_is_used (client := Platform.client)
             acme_row st "acme_corp" c known H1 H2).
Defined.

(** A lookup that the platform answers with a 500. *)
Lemma lookup_error_stops_witness :
  let st := start failing in
  let e := APIStatusError 500 (mkResponse (Some "{}")) in
  acme_row !! "account_id" = Some "acme_corp"
  ∧ fetch_by_external_id (OrbClient := Platform.client) (server st) "acme_corp"
    = (inl e, empty)
  ∧ (∀ r, e ≠ APIStatusError 404 r)
  ∧ ¬ undecodable e
  ∧ create_calls (effects (process_row (client := Platform.client) acme_row st)) = []
  ∧ ingest_calls (effects (process_row (client := Platform.client) acme_row st)) = []
  ∧ sleeps (effects (process_row (client := Platform.client) acme_row st)) = []
  ∧ ending (process_row (client := Platform.client) acme_row st) = SysExit 1.
Proof.
  intros st e.
  assert (H1 : acme_row !! "account_id" = Some "acme_corp") by reflexivity.
  assert (H2 : fetch_by_external_id (OrbClient := Platform.client) (server st) "acme_corp"
               = (inl e, empty)) by reflexivity.
  assert (H3 : ∀ r, e ≠ APIStatusError 404 r) by (intros r; discriminate).
  assert (H4 : ¬ undecodable e).
  { intros (code & r & Heq & Hr). injection Heq as _ <-. discriminate Hr. }
  pose proof (lookup_error_stops (client := Platform.client)
                acme_row st "acme_corp" e empty H1 H2 H3) as (Hc & Hi & Hs & _ & Hn).
  split_and!; [exact H1 | exact H2 | exact H3 | exact H4
               | exact Hc | exact Hi | exact Hs | exact (Hn H4)].
Defined.

(** A creation that the platform refuses. *)
Lemma creation_error_stops_witness :
  let st := start empty in
  let r := mkResponse (Some "{}") in
  let e := APIStatusError 403 (mkResponse (Some "{}")) in
  acme_row !! "account_id" = Some "acme_corp"
  ∧ fetch_by_external_id (OrbClient := readonly) (server st) "acme_corp"
    = (inl (APIStatusError 404 r), empty)
  ∧ create (OrbClient := readonly) empty "acme_corp" (customer_name "acme_corp")
           (customer_email "acme_corp") (uuid4 (drawn st))
    = (inl e, empty)
  ∧ ¬ undecodable e
  ∧ ingest_calls (effects (process_row (client := readonly) acme_row st)) = []
  ∧ sleeps (effects (process_row (client := readonly) acme_row st)) = []
  ∧ ending (process_row (client := readonly) acme_row st) = SysExit 1.
Proof.
  intros st r e.
  assert (H1 : acme_row !! "account_id" = Some "acme_corp") by reflexivity.
  assert (H2 : fetch_by_external_id (OrbClient := readonly) (server st) "acme_corp"
               = (inl (APIStatusError 404 r), empty)) by reflexivity.
  assert (H3 : create (OrbClient := readonly) empty "acme_corp"
                      (customer_name "acme_corp") (customer_email "acme_corp")
                      (uuid4 (drawn st))
               = (inl e, empty)) by reflexivity.
  assert (H4 : ¬ undecodable e).
  { intros (code & r' & Heq & Hr). injection Heq as _ <-. discriminate Hr. }
  pose proof (creation_error_stops (client := readonly)
                acme_row st "acme_corp" r empty e empty H1 H2 H3)
    as (Hi & Hs & _ & Hn).
  split_and!; [exact H1 | exact H2 | exact H3 | exact H4
               | exact Hi | exact Hs | exact (Hn H4)].
Defined.

(** A run of two rows that completes. *)
Lemma completed_run_witness :
  let rows := [acme_row; globex_row] in
  let st := start empty in
  ending (main (client := Platform.client) rows st) = Return tt
  ∧ Forall2 (λ row a, row !! "account_id" = Some a)
            rows (fetch_calls (effects (main (client := Platform.client) rows st)))
  ∧ Forall2 (λ row events,
               ∃ event, events = [event]
                        ∧ Event.properties event !! "transaction_id"
                          = VStr <$> row !! "transaction_id")
            rows (ingest_calls (effects (main (client := Platform.client) rows st)))
  ∧ sleeps (effects (main (client := Platform.client) rows st))
    = replicate (length rows) (3 # 2)%Q.
Proof.
  intros rows st.
  assert (H1 : ending (main (client := Platform.client) rows st) = Return tt) by (vm_compute; reflexivity).
  split; [exact H1|].
  exact (completed_run (client := Platform.client) rows st H1).
Defined.

(** The client is closed at the end of the end-to-end scenario. *)
Lemma client_closed_iff_witness :
  let st := start empty in
  ending (main (client := Platform.client) [acme_row] st) = Return tt
  ∧ CloseClient ∈ effects (main (client := Platform.client) [acme_row] st)
  ∧ ∃ t, effects (main (client := Platform.client) [acme_row] st) = t ++ closing
         ∧ Forall (λ e, is_close e = false) t.
Proof.
  intros st.
  assert (H1 : ending (main (client := Platform.client) [acme_row] st) = Return tt)
    by (vm_compute; reflexivity).
  pose proof (client_closed_iff (client := Platform.client) [acme_row] st)
    as [Hiff Hlast].
  split_and!; [exact H1 | exact (proj2 Hiff H1) | exact (Hlast H1)].
Defined.

(** The keys of a run of two rows, both of unknown customers. *)
Lemma tokens_used_once_witness :
  let rows := [acme_row; globex_row] in
  let st := start empty in
  Inj (=) (=) (@uuid4 Platform.runtime)
  ∧ NoDup (creation_keys (effects (main (client := Platform.client) rows st))
           ++ (Event.idempotency_key <$> submitted (effects (main (client := Platform.client) rows st)))).
Proof.
  intros rows st. split; [exact platform_tokens_distinct|].
  exact (proj2 (tokens_used_once (client := Platform.client) rows st)
               platform_tokens_distinct).
Defined.

(** A cell of two blanks and a comma, and the cells "-250" and "+250". *)
Lemma parse_int_blank_witness :
  " , " ≠ "" ∧ blank_or_commas " , " = true
  ∧ parse_int 4300 " , " = inl Builtins.invalid_literal.
Proof.
  assert (H1 : " , " ≠ "") by discriminate.
  assert (H2 : blank_or_commas " , " = true) by reflexivity.
  split_and!; [exact H1 | exact H2 | exact (parse_int_blank 4300 " , " H1 H2)].
Defined.

Lemma parse_int_signed_witness :
  "250" ≠ "" ∧ all_digits "250" = true
  ∧ within_limit 4300 (String.length "250")
  ∧ parse_int 4300 "-250" = inr (-250)%Z
  ∧ parse_int 4300 "+250" = inr 250%Z.
Proof.
  assert (H1 : "250" ≠ "") by discriminate.
  assert (H2 : all_digits "250" = true) by reflexivity.
  assert (H3 : within_limit 4300 (String.length "250")) by (left; simpl; lia).
  split_and!; [exact H1 | exact H2 | exact H3 | ..];
    apply (parse_int_signed 4300 "250" H1 H2 H3).
Defined.

End MoreScenarios.
